(** * tanam: CDN cache invalidation and warming (src/cache.ts)

    A shallow embedding of [src/cache.ts]: the JavaScript string
    operations the module calls, SHA-256 as computed by crypto-js, the
    host registry kept in the realtime database, the promise-returning
    functions as computations over an explicit state, and the properties of
    the module stated over them. *)

From Stdlib Require Import ZArith Lia Ascii.
From Stdlib Require String.
From stdpp Require Import base option list gmap strings pretty.

Local Open Scope Z_scope.

(* ===================================================================== *)
(** * JavaScript strings *)
(* ===================================================================== *)

(** A JavaScript string is modelled by the sequence of its bytes in UTF-8.
    The literals this module searches for are ASCII, so positions counted
    from a match to the end of the string agree with positions counted in
    UTF-16 code units. *)

(** [s.length] *)
Definition js_length (s : string) : Z := Z.of_nat (String.length s).

(** [String.prototype.endsWith(searchString)] with the default end
    position: the search string must fit, and the last
    [searchString.length] units of [s] must be the search string. *)
Definition endsWith (s searchString : string) : bool :=
  let start := js_length s - js_length searchString in
  if start <? 0 then false
  else String.eqb
         (String.substring (Z.to_nat start) (String.length searchString) s)
         searchString.

(** [String.prototype.lastIndexOf(searchString)] with the default start
    position: the largest [k] at which [searchString] occurs in [s], and
    [-1] when there is none.  The scan walks [s] from the left and keeps
    the last position at which [searchString] is a prefix of the rest. *)
Fixpoint lastIndexOf_scan (searchString s : string) (k found : Z) : Z :=
  let found' := if String.prefix searchString s then k else found in
  match s with
  | EmptyString => found'
  | String _ rest => lastIndexOf_scan searchString rest (k + 1) found'
  end.

Definition lastIndexOf (s searchString : string) : Z :=
  lastIndexOf_scan searchString s 0 (-1).

(** [String.prototype.substr(start, length)] (ECMAScript B.2.3.1): a
    negative [start] counts from the end, [length] is clamped to what is
    left, and a length that is not positive gives the empty string. *)
Definition substr (s : string) (start length : Z) : string :=
  let size := js_length s in
  let intStart := if start <? 0 then Z.max (size + start) 0 else Z.min start size in
  let resultLength := Z.min (Z.max length 0) (size - intStart) in
  if resultLength <=? 0 then ""
  else String.substring (Z.to_nat intStart) (Z.to_nat resultLength) s.

(** [String.prototype.toLowerCase] on the ASCII letters. *)
Definition ascii_toLowerCase (c : ascii) : ascii :=
  let n := nat_of_ascii c in
  if ((65 <=? n) && (n <=? 90))%nat then ascii_of_nat (n + 32) else c.

Fixpoint toLowerCase (s : string) : string :=
  match s with
  | EmptyString => EmptyString
  | String c rest => String (ascii_toLowerCase c) (toLowerCase rest)
  end.

(* ===================================================================== *)
(** * SHA-256 (crypto-js) *)
(* ===================================================================== *)

(** [SHA256] is imported from the crypto-js package, which implements the
    hash of FIPS 180-4.  The model follows the standard: 32-bit words are
    integers in [0, 2^32), the round constants and the initial hash value
    are computed from the cube and square roots of the first primes as the
    standard defines them, and the message is the byte sequence of the
    string (crypto-js reads a string argument as UTF-8). *)
Module Sha256.

Definition mask32 : Z := 2 ^ 32 - 1.
Definition w32 (x : Z) : Z := Z.land x mask32.
Definition add32 (x y : Z) : Z := w32 (x + y).
Definition rotr (n x : Z) : Z :=
  Z.lor (Z.shiftr x n) (w32 (Z.shiftl x (32 - n))).
Definition shr (n x : Z) : Z := Z.shiftr x n.
Definition not32 (x : Z) : Z := Z.lxor x mask32.

Definition Ch (x y z : Z) : Z := Z.lxor (Z.land x y) (Z.land (not32 x) z).
Definition Maj (x y z : Z) : Z :=
  Z.lxor (Z.lxor (Z.land x y) (Z.land x z)) (Z.land y z).
Definition Sigma0 (x : Z) : Z := Z.lxor (Z.lxor (rotr 2 x) (rotr 13 x)) (rotr 22 x).
Definition Sigma1 (x : Z) : Z := Z.lxor (Z.lxor (rotr 6 x) (rotr 11 x)) (rotr 25 x).
Definition sigma0 (x : Z) : Z := Z.lxor (Z.lxor (rotr 7 x) (rotr 18 x)) (shr 3 x).
Definition sigma1 (x : Z) : Z := Z.lxor (Z.lxor (rotr 17 x) (rotr 19 x)) (shr 10 x).

(** The first 64 primes. *)
Definition is_prime (n : Z) : bool :=
  forallb (fun d => negb (n mod d =? 0)) (seqZ 2 (n - 2)).
Definition primes : list Z :=
  Eval vm_compute in take 64 (filter (fun n => is_prime n = true) (seqZ 2 400)).

(** Integer cube root, one bit at a time from bit [fuel - 1] down. *)
Fixpoint icbrt_bits (fuel : nat) (n r : Z) : Z :=
  match fuel with
  | O => r
  | S f =>
      let c := Z.lor r (2 ^ Z.of_nat f) in
      icbrt_bits f n (if c * c * c <=? n then c else r)
  end.
Definition icbrt (n : Z) : Z := icbrt_bits 40 n 0.

(** The first 32 bits of the fractional parts of the cube roots of the
    first 64 primes. *)
Definition K : list Z :=
  Eval vm_compute in map (fun p => w32 (icbrt (p * 2 ^ 96))) primes.

(** The first 32 bits of the fractional parts of the square roots of the
    first 8 primes. *)
Definition H0 : list Z :=
  Eval vm_compute in map (fun p => w32 (Z.sqrt (p * 2 ^ 64))) (take 8 primes).

Definition bytes_of_string (s : string) : list Z :=
  map (fun c => Z.of_nat (nat_of_ascii c)) (String.list_ascii_of_string s).

(** Big-endian bytes of [x], [n] of them. *)
Fixpoint be_bytes (n : nat) (x : Z) : list Z :=
  match n with
  | O => []
  | S m => Z.land (Z.shiftr x (8 * Z.of_nat m)) 255 :: be_bytes m x
  end.

(** Padding: the bit 1, zero bits up to 448 modulo 512, and the length of
    the message in bits as a 64-bit big-endian integer. *)
Definition pad (msg : list Z) : list Z :=
  let len := Z.of_nat (length msg) in
  msg ++ [128] ++ replicate (Z.to_nat ((55 - len) mod 64)) 0
      ++ be_bytes 8 (8 * len).

Fixpoint words_of_bytes (bs : list Z) : list Z :=
  match bs with
  | b0 :: b1 :: b2 :: b3 :: rest =>
      Z.lor (Z.lor (Z.lor (Z.shiftl b0 24) (Z.shiftl b1 16)) (Z.shiftl b2 8)) b3
      :: words_of_bytes rest
  | _ => []
  end.

(** The message schedule: [n] more words after those of [ws]. *)
Fixpoint schedule (n : nat) (ws : list Z) : list Z :=
  match n with
  | O => ws
  | S m =>
      let t := length ws in
      let W i := nth (t - i) ws 0 in
      schedule m (ws ++ [add32 (add32 (add32 (sigma1 (W 2%nat)) (W 7%nat))
                                       (sigma0 (W 15%nat))) (W 16%nat)])
  end.

Record Regs := mkRegs { ra : Z; rb : Z; rc : Z; rd : Z;
                        re : Z; rf : Z; rg : Z; rh : Z }.

Definition round (r : Regs) (kw : Z * Z) : Regs :=
  let T1 := add32 (add32 (add32 (add32 (rh r) (Sigma1 (re r)))
                                (Ch (re r) (rf r) (rg r))) (fst kw)) (snd kw) in
  let T2 := add32 (Sigma0 (ra r)) (Maj (ra r) (rb r) (rc r)) in
  mkRegs (add32 T1 T2) (ra r) (rb r) (rc r) (add32 (rd r) T1) (re r) (rf r) (rg r).

Definition regs_of_list (h : list Z) : Regs :=
  mkRegs (nth 0 h 0) (nth 1 h 0) (nth 2 h 0) (nth 3 h 0)
         (nth 4 h 0) (nth 5 h 0) (nth 6 h 0) (nth 7 h 0).
Definition list_of_regs (r : Regs) : list Z :=
  [ra r; rb r; rc r; rd r; re r; rf r; rg r; rh r].

Definition compress (h : list Z) (block : list Z) : list Z :=
  let W := schedule 48 (words_of_bytes block) in
  let r := fold_left round (combine K W) (regs_of_list h) in
  map (fun xy => add32 (fst xy) (snd xy)) (combine h (list_of_regs r)).

(** The blocks of 64 bytes, at most [fuel] of them. *)
Fixpoint hash_blocks (fuel : nat) (h : list Z) (bs : list Z) : list Z :=
  match fuel, bs with
  | S f, _ :: _ => hash_blocks f (compress h (take 64 bs)) (drop 64 bs)
  | _, _ => h
  end.

(** [SHA256(message)]: the eight words of the digest. *)
Definition SHA256 (message : string) : list Z :=
  let bs := pad (bytes_of_string message) in
  hash_blocks (length bs) H0 bs.

Definition hex_digit (d : Z) : ascii :=
  ascii_of_nat (Z.to_nat (if d <? 10 then 48 + d else 87 + d)).

Fixpoint hex_of_word (n : nat) (x : Z) : string :=
  match n with
  | O => EmptyString
  | S m => String (hex_digit (Z.land (Z.shiftr x (4 * Z.of_nat m)) 15))
                  (hex_of_word m x)
  end.

(** [WordArray.toString()]: the default encoder of crypto-js is [Hex],
    eight digits per word. *)
Definition toString (words : list Z) : string :=
  fold_right (fun w acc => hex_of_word 8 w +:+ acc) EmptyString words.

End Sha256.

(* ===================================================================== *)
(** * Path variants *)
(* ===================================================================== *)

(** The first statements of [purgeCache] (lines 146-150) and of
    [heatCache] (lines 126-130) are the same three lines:
<<
    const filenameVariants = [filePath];
    if (filePath.endsWith('/index.html')) {
      filenameVariants.push(filePath.substr(0, filePath.lastIndexOf('/index.html')));
      filenameVariants.push(filePath.substr(0, filePath.lastIndexOf('index.html')));
    }
>> *)
Definition filenameVariants (filePath : string) : list string :=
  [filePath] ++
  (if endsWith filePath "/index.html" then
     [ substr filePath 0 (lastIndexOf filePath "/index.html");
       substr filePath 0 (lastIndexOf filePath "index.html") ]
   else []).

(* ===================================================================== *)
(** * Data model *)
(* ===================================================================== *)

(** The values a configuration entry can hold: firebase delivers runtime
    configuration as strings, the defaults are numbers.  A number is an
    integer that JavaScript prints in plain decimal (magnitude below
    [10^21]). *)
Inductive JsValue :=
  | JsNumber (n : Z)
  | JsString (s : string).

(** [`${v}`] in a template literal; a missing property is [undefined]. *)
Definition js_template (v : option JsValue) : string :=
  match v with
  | Some (JsNumber n) => pretty n
  | Some (JsString s) => s
  | None => "undefined"
  end.

(** [interface CacheConfig], as the object the spread builds. *)
Abbreviation CacheConfig := (gmap string JsValue).

Definition CONFIG_DEFAULT : CacheConfig :=
  {[ "s_max_age" := JsNumber (60 * 60 * 24 * 365);
     "max_age" := JsNumber (60 * 10) ]}.

(** [interface CachedDomain] *)
Record CachedDomain := mkCachedDomain {
  domain : string;
  lastSeen : Z
}.

(** [CacheFirebasePath.hostRegistry] *)
Definition hostRegistry : string := "cacheDomains".

(** The realtime database: the value stored under [ref(r).child(k)]. *)
Abbreviation Database := (gmap (string * string) CachedDomain).

Inductive Method := GET | PURGE.

(** The [opts] object handed to [https.get]. *)
Record RequestOptions := mkOpts {
  hostname : string;
  port : Z;
  path : string;
  method : Method
}.

Global Instance Method_eq_dec : EqDecision Method.
Proof. solve_decision. Defined.
Global Instance RequestOptions_eq_dec : EqDecision RequestOptions.
Proof. solve_decision. Defined.
Global Instance CachedDomain_eq_dec : EqDecision CachedDomain.
Proof. solve_decision. Defined.

(** What the network does with a request that was sent: it answers, with
    whatever status, or the connection fails (DNS failure, refused or
    reset connection, TLS failure). *)
Inductive NetworkOutcome :=
  | Answered (statusCode : Z) (statusMessage : string)
  | Failed (code : string).

(** What becomes of a call of [https.get]: the call itself throws, or the
    request is sent and a response arrives, or the request is sent and the
    request object emits ['error']. *)
Inductive HttpsOutcome :=
  | Response (statusCode : Z) (statusMessage : string)
  | RequestError (code : string)
  | Throws (message : string).

(** What becomes of a database write. *)
Inductive SetOutcome :=
  | Acknowledged
  | WriteFailed (reason : string).

(** A firestore document: [data().path] is an optional list of paths. *)
Record DocumentData := mkDoc { doc_path : option (list string) }.

(** A firestore snapshot: [exists] is true exactly when [data()] is
    defined. *)
Record DocumentSnapshot := mkSnap { data : option DocumentData }.
Definition snap_exists (s : DocumentSnapshot) : bool :=
  match data s with Some _ => true | None => false end.

(** [Change<T>]: the value before and after a write. *)
Record Change (T : Type) := mkChange { before : T; after : T }.
Arguments mkChange {T} _ _.
Arguments before {T} _.
Arguments after {T} _.

(** A storage object. *)
Record StorageFile := mkFile { name : string }.

(** What the module observes of its surroundings: the functions it
    imports from [./site] and [./content], which are not part of this
    file, the runtime configuration, and the outcomes of its requests,
    writes and timers. *)
Record World := mkWorld {
  (* ./site *)
  getPrimaryDomain : string;
  getDomains : list string;
  getDefaultDomain : string;
  (* ./content *)
  getThemeFiles : string → list StorageFile;
  getAllDocuments : list DocumentData;
  getPublicPathToStorageFile : string → string;
  (* functions.config().cache *)
  config_cache : option CacheConfig;
  (* the network, the database server and the event loop *)
  network : RequestOptions → NetworkOutcome;
  set_outcome : string * string → SetOutcome;
  timer_lag : N
}.

(** Node's client refuses a request path that holds a character outside
    U+0021..U+00FF (a space, a control character, a character beyond
    Latin-1): the call of [https.get] throws before anything is sent.  In
    UTF-8 the characters beyond U+00FF are the sequences that start with a
    byte of [0xC4] or more.  An empty path passes: the check is skipped for
    it.  (The hostnames of the registry are those of [Host] headers that
    were received, which Node accepts as a header again.) *)
Definition unescaped_char (c : ascii) : bool :=
  let n := nat_of_ascii c in
  ((n <=? 32) || (196 <=? n))%nat.

Fixpoint unescaped (path : string) : bool :=
  match path with
  | EmptyString => false
  | String c rest => unescaped_char c || unescaped rest
  end.

(** What becomes of [https.get(opts, callback)] in a world. *)
Definition https_outcome (w : World) (opts : RequestOptions) : HttpsOutcome :=
  if unescaped (path opts) then Throws "Request path contains unescaped characters"
  else match network w opts with
       | Answered statusCode statusMessage => Response statusCode statusMessage
       | Failed code => RequestError code
       end.

(* ===================================================================== *)
(** * Promises *)
(* ===================================================================== *)

Inductive JsError :=
  | TypeError (message : string)
  | DatabaseError (reason : string).

(** A promise is fulfilled, rejected, or never settles. *)
Inductive Promise (A : Type) :=
  | Fulfilled (value : A)
  | Rejected (e : JsError)
  | Pending.
Arguments Fulfilled {A} _.
Arguments Rejected {A} _.
Arguments Pending {A}.

(** What the outside sees of a run: the calls of [https.get], the errors
    that nothing catches, the writes to the database.  [console.log] calls
    are left out: they do not steer anything. *)
Inductive Event :=
  | HttpsGet (time : Z) (opts : RequestOptions)
  | UncaughtError (code : string)
  | DbSet (ref : string * string) (host : string).

Record State := mkState {
  now : Z;
  db : Database
}.

Record Result (A : Type) := mkResult {
  settled : Promise A;
  final : State;
  events : list Event
}.
Arguments mkResult {A} _ _ _.
Arguments settled {A} _.
Arguments final {A} _.
Arguments events {A} _.

(** An asynchronous computation started in a state: the events it causes
    in program order, and how it settles.  The order of events among
    computations that run concurrently is the order in which they were
    started. *)
Definition M (A : Type) : Type := State → Result A.

Definition ret {A} (a : A) : M A := fun st => mkResult (Fulfilled a) st [].

(** [await]: the rest runs only once the promise is fulfilled. *)
Definition bind {A B} (m : M A) (k : A → M B) : M B := fun st =>
  let r := m st in
  match settled r with
  | Fulfilled a =>
      let r' := k a (final r) in
      mkResult (settled r') (final r') (events r ++ events r')
  | Rejected e => mkResult (Rejected e) (final r) (events r)
  | Pending => mkResult Pending (final r) (events r)
  end.

Notation "'let!' x ':=' m 'in' k" := (bind m (fun x => k))
  (at level 10, x name, m at level 100, k at level 200).
Notation "'run!' m 'in' k" := (bind m (fun _ => k))
  (at level 10, m at level 100, k at level 200).

Definition throw {A} (e : JsError) : M A := fun st => mkResult (Rejected e) st [].

(** A promise that was created and not yet awaited: how it settles and
    when. *)
Record Handle (A : Type) := mkHandle {
  outcome : Promise A;
  settledAt : Z
}.
Arguments mkHandle {A} _ _.
Arguments outcome {A} _.
Arguments settledAt {A} _.

(** Calling a promise-returning function without [await]: its effects
    happen, the caller goes on at its own time. *)
Definition spawn {A} (m : M A) : M (Handle A) := fun st =>
  let r := m st in
  mkResult (Fulfilled (mkHandle (settled r) (now (final r))))
           (mkState (now st) (db (final r)))
           (events r).

(** [for (const x of xs) { ... }] *)
Fixpoint forM {A B} (xs : list A) (body : A → M B) : M (list B) :=
  match xs with
  | [] => ret []
  | x :: rest =>
      let! y := body x in
      let! ys := forM rest body in
      ret (y :: ys)
  end.

(** How [Promise.all] settles: rejected as soon as one promise is
    rejected, pending while one is pending, fulfilled with all the values
    otherwise. *)
Fixpoint all_rejected {A} (ps : list (Promise A)) : option JsError :=
  match ps with
  | [] => None
  | Rejected e :: _ => Some e
  | _ :: rest => all_rejected rest
  end.

Fixpoint all_values {A} (ps : list (Promise A)) : option (list A) :=
  match ps with
  | [] => Some []
  | Fulfilled a :: rest => cons a <$> all_values rest
  | _ :: _ => None
  end.

Definition all_settle {A} (ps : list (Promise A)) : Promise (list A) :=
  match all_rejected ps with
  | Some e => Rejected e
  | None =>
      match all_values ps with
      | Some vs => Fulfilled vs
      | None => Pending
      end
  end.

(** [await Promise.all(promises)] *)
Definition Promise_all {A} (promises : list (Handle A)) : M (list A) := fun st =>
  mkResult (all_settle (outcome <$> promises))
           (mkState (foldr Z.max (now st) (settledAt <$> promises)) (db st))
           [].

(* ===================================================================== *)
(** * The platform *)
(* ===================================================================== *)

(** Node's timers: a delay below 1 or above [2^31 - 1] is set to 1; the
    callback runs once the delay has passed, [timer_lag] later. *)
Definition TIMEOUT_MAX : Z := 2 ^ 31 - 1.

Definition timer_delay (delay : Z) : Z :=
  if (1 <=? delay) && (delay <=? TIMEOUT_MAX) then delay else 1.

Section Cache.

Variable w : World.

(** [await new Promise((resolve) => setTimeout(resolve, delay))] *)
Definition setTimeout_resolve (delay : Z) : M unit := fun st =>
  mkResult (Fulfilled tt)
           (mkState (now st + timer_delay delay + Z.of_N (timer_lag w)) (db st))
           [].

(** [new Promise((resolve) => { https.get(opts, callback) })]: when
    [https.get] throws, inside the executor of the promise, the promise is
    rejected with what was thrown.  Otherwise the request is sent;
    [callback] is the listener of ['response'], so it is called when a
    response arrives and only then.  The module registers no listener for
    ['error']: when the request emits it, Node raises the error as an
    uncaught exception.  The result is the response the callback
    receives. *)
Definition https_get (opts : RequestOptions) : M (Z * string) := fun st =>
  match https_outcome w opts with
  | Response statusCode statusMessage =>
      mkResult (Fulfilled (statusCode, statusMessage)) st
               [HttpsGet (now st) opts]
  | RequestError code =>
      mkResult Pending st [HttpsGet (now st) opts; UncaughtError code]
  | Throws message =>
      mkResult (Rejected (TypeError message)) st [HttpsGet (now st) opts]
  end.

(** [ref(r).once('value')] followed by [snap.forEach]: the children of
    [r]. *)
Definition once_value (r : string) : M (list CachedDomain) := fun st =>
  mkResult
    (Fulfilled (snd <$> filter (fun kv => fst (fst kv) = r) (map_to_list (db st))))
    st [].

(** [ref(r).child(k).set({domain, lastSeen: ServerValue.TIMESTAMP})]:
    the server fills in its time. *)
Definition child_set (r k : string) (host : string) : M unit := fun st =>
  match set_outcome w (r, k) with
  | Acknowledged =>
      mkResult (Fulfilled tt)
               (mkState (now st) (<[(r, k) := mkCachedDomain host (now st)]> (db st)))
               [DbSet (r, k) host]
  | WriteFailed reason =>
      mkResult (Rejected (DatabaseError reason)) st [DbSet (r, k) host]
  end.

(* =================================================================== *)
(** * src/cache.ts *)
(* =================================================================== *)

(** Lines 27-31. *)
Definition getCacheHeader : string :=
  let config : CacheConfig := default ∅ (config_cache w) ∪ CONFIG_DEFAULT in
  "public, max-age=" +:+ js_template (config !! "max_age")
    +:+ ", s-maxage=" +:+ js_template (config !! "s_max_age").

(** Lines 164-179: the promise calls [resolve] in the response
    callback, whatever the status. *)
Definition purgeFromCdn (host path : string) : M unit :=
  let opts := mkOpts host 443 path PURGE in
  let! res := https_get opts in
  ret tt.

(** Lines 181-196. *)
Definition heatUpCdn (host path : string) : M unit :=
  let opts := mkOpts host 443 path GET in
  let! res := https_get opts in
  ret tt.

(** The parameter [filePath] is typed [string], but callers pass
    [path[0]], which is [undefined] for an empty array; then
    [filePath.endsWith] raises a [TypeError]. *)
Definition filenameVariants_of (filePath : option string) : M (list string) :=
  match filePath with
  | Some p => ret (filenameVariants p)
  | None => throw (TypeError "Cannot read property 'endsWith' of undefined")
  end.

(** Lines 144-162. *)
Definition purgeCache (filePath : option string) : M (list unit) :=
  let! filenameVariants := filenameVariants_of filePath in
  let! snap := once_value hostRegistry in
  let! promises :=
    forM snap (fun hostData =>
      forM filenameVariants (fun filenameVariant =>
        spawn (purgeFromCdn (domain hostData) filenameVariant))) in
  Promise_all (concat promises).

(** Lines 121-142; [delay] is [None] when the caller leaves it out. *)
Definition heatCache (filePath : option string) (delay : option Z) : M (list unit) :=
  let delay := default 10000 delay in
  run! setTimeout_resolve delay in
  let! filenameVariants := filenameVariants_of filePath in
  let! snap := once_value hostRegistry in
  let! promises :=
    forM snap (fun hostData =>
      forM filenameVariants (fun filenameVariant =>
        spawn (heatUpCdn (domain hostData) filenameVariant))) in
  Promise_all (concat promises).

(** [!!doc.path]: an array, empty or not, is truthy. *)
Definition has_path (s : DocumentSnapshot) : bool :=
  match data s with
  | Some d => match doc_path d with Some _ => true | None => false end
  | None => false
  end.

(** [doc.path[0]] where [doc.path] is an array. *)
Definition path0 (s : DocumentSnapshot) : option string :=
  d ← data s; l ← doc_path d; l !! 0%nat.

(** Lines 39-46. *)
Definition purge_before (snap : Change DocumentSnapshot) : M unit :=
  if snap_exists (before snap) && has_path (before snap) then
    let! p1 := spawn (purgeCache (Some "/sitemap.xml")) in
    let! p2 := spawn (purgeCache (path0 (before snap))) in
    run! Promise_all [p1; p2] in
    ret tt
  else ret tt.

(** Lines 33-54. *)
Definition tanam_onDocWriteUpdateCache (snap : Change DocumentSnapshot)
  : M (option (list unit)) :=
  let! domain := ret (getPrimaryDomain w) in
  run! purge_before snap in
  if snap_exists (after snap) && has_path (after snap) then
    let! r := heatCache (path0 (after snap)) None in
    ret (Some r)
  else ret None.

(** [document.data().path[0]] for a document of [getAllDocuments]:
    reading index 0 of a missing [path] raises a [TypeError]. *)
Definition document_path0 (document : DocumentData) : M (option string) :=
  match doc_path document with
  | Some l => ret (l !! 0%nat)
  | None => throw (TypeError "Cannot read property '0' of undefined")
  end.

(** Lines 56-83; the event carries the theme name before the write, if
    there was one. *)
Definition tanam_onThemeChangeUpdateCache (snap : Change (option string))
  : M (option (list (list unit))) :=
  match before snap with
  | None => ret None
  | Some previousTheme =>
      let! domains := ret (getDomains w) in
      let! themeFiles := ret (getThemeFiles w previousTheme) in
      let! documents := ret (getAllDocuments w) in
      let! promises :=
        forM domains (fun domain =>
          let! ps1 :=
            forM themeFiles (fun themeFile =>
              spawn (purgeCache
                       (Some (getPublicPathToStorageFile w (name themeFile))))) in
          let! ps2 :=
            forM documents (fun document =>
              let! p := document_path0 document in
              spawn (purgeCache p)) in
          ret (ps1 ++ ps2)) in
      let! r := Promise_all (concat promises) in
      ret (Some r)
  end.

(** Lines 85-91. *)
Definition tanam_onFileChangeUpdateCache (object : StorageFile) : M (list unit) :=
  let filePath := getPublicPathToStorageFile w (name object) in
  run! purgeCache (Some filePath) in
  heatCache (Some filePath) None.

(** Lines 93-97. *)
Definition tanam_onFileDeleteUpdateCache (object : StorageFile) : M (list unit) :=
  let filePath := getPublicPathToStorageFile w (name object) in
  purgeCache (Some filePath).

(** Line 109: [SHA256(currentHost).toString().toLowerCase()]. *)
Definition hostHash (currentHost : string) : string :=
  toLowerCase (Sha256.toString (Sha256.SHA256 currentHost)).

(** Lines 101-105. *)
Definition hosts (host : string) : list string :=
  [host] ++ (if endsWith host ".cloudfunctions.net" then [getDefaultDomain w] else []).

(** Lines 99-119. *)
Definition registerRequestHost (host : string) : M (list unit) :=
  let! promises :=
    forM (hosts host) (fun currentHost =>
      spawn (child_set hostRegistry (hostHash currentHost) currentHost)) in
  Promise_all promises.

End Cache.

(** The requests of a run: the options of its calls of [https.get], in
    the order of the calls.  A call that throws is listed as well, though
    nothing goes out for it. *)
Definition requests (es : list Event) : list RequestOptions :=
  omap (fun e => match e with HttpsGet _ o => Some o | _ => None end) es.

Definition request_times (es : list Event) : list Z :=
  omap (fun e => match e with HttpsGet t _ => Some t | _ => None end) es.

Definition writes (es : list Event) : list ((string * string) * string) :=
  omap (fun e => match e with DbSet r h => Some (r, h) | _ => None end) es.

(** The registry as [purgeCache] and [heatCache] read it. *)
Definition registry (st : State) : list CachedDomain :=
  snd <$> filter (fun kv => fst (fst kv) = hostRegistry) (map_to_list (db st)).

(* ===================================================================== *)
(** * The fan-out over registry and variants *)
(* ===================================================================== *)

(** One request per pair of a registry entry and a variant. *)
Definition fanout (m : Method) (reg : list CachedDomain) (variants : list string)
  : list RequestOptions :=
  (fun hv => mkOpts (domain (fst hv)) 443 (snd hv) m) <$> list_prod reg variants.

(** How one request of the fan-out settles, and the events it causes. *)
Definition call_settles (w : World) (m : Method) (host path : string) : Promise unit :=
  match https_outcome w (mkOpts host 443 path m) with
  | Response _ _ => Fulfilled tt
  | RequestError _ => Pending
  | Throws message => Rejected (TypeError message)
  end.

Definition call_events (w : World) (m : Method) (host path : string) (t : Z)
  : list Event :=
  let opts := mkOpts host 443 path m in
  match https_outcome w opts with
  | Response _ _ => [HttpsGet t opts]
  | RequestError code => [HttpsGet t opts; UncaughtError code]
  | Throws _ => [HttpsGet t opts]
  end.

Definition cdn_call (w : World) (m : Method) : string → string → M unit :=
  match m with PURGE => purgeFromCdn w | GET => heatUpCdn w end.

(** The two nested loops of [purgeCache] and [heatCache]. *)
Definition fanout_loop (w : World) (m : Method) (snap : list CachedDomain)
    (variants : list string) : M (list (list (Handle unit))) :=
  forM snap (fun hostData =>
    forM variants (fun filenameVariant =>
      spawn (cdn_call w m (domain hostData) filenameVariant))).

Definition fanout_handles (w : World) (m : Method) (snap : list CachedDomain)
    (variants : list string) (t : Z) : list (list (Handle unit)) :=
  (fun hostData =>
     (fun v => mkHandle (call_settles w m (domain hostData) v) t) <$> variants)
  <$> snap.

Definition fanout_events (w : World) (m : Method) (snap : list CachedDomain)
    (variants : list string) (t : Z) : list Event :=
  concat ((fun hostData =>
             concat ((fun v => call_events w m (domain hostData) v t) <$> variants))
          <$> snap).

(** The promises [Promise.all] waits for, one per request. *)
Definition fanout_promises (w : World) (m : Method) (snap : list CachedDomain)
    (variants : list string) : list (Promise unit) :=
  (fun hv => call_settles w m (domain (fst hv)) (snd hv)) <$> list_prod snap variants.

(** [purgeCache] and [heatCache] after their first lines: read the
    registry, send one request per pair, wait for all. *)
Definition broadcast (w : World) (m : Method) (variants : list string) : M (list unit) :=
  let! snap := once_value hostRegistry in
  let! promises := fanout_loop w m snap variants in
  Promise_all (concat promises).

(* ===================================================================== *)
(** * Registration, write by write *)
(* ===================================================================== *)

(** How the write for one host settles, and what it leaves in the
    store. *)
Definition set_settles (w : World) (currentHost : string) : Promise unit :=
  match set_outcome w (hostRegistry, hostHash currentHost) with
  | Acknowledged => Fulfilled tt
  | WriteFailed reason => Rejected (DatabaseError reason)
  end.

Definition upsert (w : World) (t : Z) (d : Database) (currentHost : string) : Database :=
  match set_outcome w (hostRegistry, hostHash currentHost) with
  | Acknowledged =>
      <[(hostRegistry, hostHash currentHost) := mkCachedDomain currentHost t]> d
  | WriteFailed _ => d
  end.

(** [s.includes(part)] as a proposition. *)
Definition contains (s part : string) : Prop :=
  ∃ a b, s = a +:+ part +:+ b.

(* ===================================================================== *)
(** * The sides of a content write *)
(* ===================================================================== *)

(** The path a side of the change stands for: the state exists, it has a
    path list, and the list has an element at index 0. *)
Definition first_path (s : DocumentSnapshot) : option string :=
  match data s with
  | Some (mkDoc (Some (p :: _))) => Some p
  | _ => None
  end.

(** A path list, where there is one, is not empty. *)
Definition paths_nonempty (s : DocumentSnapshot) : Prop :=
  ∀ d, data s = Some d → doc_path d ≠ Some [].

(** Every request of the fan-out of a path is answered, with whatever
    status. *)
Definition fanout_answered (w : World) (m : Method) (st : State) (p : string) : Prop :=
  ∀ hostData v, hostData ∈ registry st → v ∈ filenameVariants p →
    ∃ statusCode statusMessage,
      https_outcome w (mkOpts (domain hostData) 443 v m)
      = Response statusCode statusMessage.

(** What Node sends for the options of a call: an empty path goes out
    as [/]. *)
Definition on_the_wire (o : RequestOptions) : RequestOptions :=
  mkOpts (hostname o) (port o) (if String.eqb (path o) "" then "/" else path o)
         (method o).

(* ===================================================================== *)
(** * The theme change, loop by loop *)
(* ===================================================================== *)

(** The paths one round of the loop over the site domains purges: the
    public paths of the files of the previous theme, then the first path
    of every document. *)
Definition theme_paths (w : World) (previousTheme : string) : list string :=
  ((fun themeFile => getPublicPathToStorageFile w (name themeFile))
     <$> getThemeFiles w previousTheme)
  ++ omap (fun document => first_path (mkSnap (Some document))) (getAllDocuments w).

(** The requests of one round. *)
Definition theme_round (w : World) (previousTheme : string) (reg : list CachedDomain)
  : list RequestOptions :=
  theme_paths w previousTheme ≫= (fun p => fanout PURGE reg (filenameVariants p)).

(* ===================================================================== *)
(** * Scenarios *)
(* ===================================================================== *)

(** A deployment with the site domains [a.com] and [b.com], the theme
    [classic] with the one asset [t1.css], and two documents; every request
    is answered with [200 OK] and every write is acknowledged. *)
Definition world_ok : World := {|
  getPrimaryDomain := "a.com";
  getDomains := ["a.com"; "b.com"];
  getDefaultDomain := "tanam.firebaseapp.com";
  getThemeFiles := fun theme =>
    if String.eqb theme "classic" then [mkFile "themes/classic/t1.css"] else [];
  getAllDocuments := [mkDoc (Some ["/p1"]); mkDoc (Some ["/p2"])];
  getPublicPathToStorageFile := fun name => "/" +:+ name;
  config_cache := None;
  network := fun _ => Answered 200 "OK";
  set_outcome := fun _ => Acknowledged;
  timer_lag := 0%N
|}.

(** The same deployment when the connections to the CDN are refused. *)
Definition world_refused : World := {|
  getPrimaryDomain := getPrimaryDomain world_ok;
  getDomains := getDomains world_ok;
  getDefaultDomain := getDefaultDomain world_ok;
  getThemeFiles := getThemeFiles world_ok;
  getAllDocuments := getAllDocuments world_ok;
  getPublicPathToStorageFile := getPublicPathToStorageFile world_ok;
  config_cache := None;
  network := fun _ => Failed "ECONNREFUSED";
  set_outcome := fun _ => Acknowledged;
  timer_lag := 0%N
|}.

(** The same deployment with [max_age] set to 30 in the configuration. *)
Definition world_max_age_30 : World := {|
  getPrimaryDomain := getPrimaryDomain world_ok;
  getDomains := getDomains world_ok;
  getDefaultDomain := getDefaultDomain world_ok;
  getThemeFiles := getThemeFiles world_ok;
  getAllDocuments := getAllDocuments world_ok;
  getPublicPathToStorageFile := getPublicPathToStorageFile world_ok;
  config_cache := Some {[ "max_age" := JsString "30" ]};
  network := network world_ok;
  set_outcome := set_outcome world_ok;
  timer_lag := 0%N
|}.

Definition st_empty : State := mkState 0 ∅.

(** The registry after requests on [a.com], and on [a.com] and [b.com]. *)
Definition st_one : State :=
  final (registerRequestHost world_ok "a.com" st_empty).
Definition st_two : State :=
  final (registerRequestHost world_ok "b.com" st_one).

(* ===================================================================== *)
(** * Titles and paths *)
(* ===================================================================== *)

(** The helpers that follow the cache module in the source (lines
    205-212).  [parseTitle] and [generatePermalink] are left out: they
    lower the case of arbitrary text and read the clock. *)

(** Lines 205-207. *)
Definition generateFeaturedImageName (title : string) : string :=
  "/content/images/featured-" +:+ title +:+ ".jpg".

(** Lines 209-212. *)
Definition generatePaths (title template : string) : list string :=
  if String.eqb template "page" then [title +:+ ".html"]
  else ["/" +:+ template +:+ "/" +:+ title +:+ ".html"; "/" +:+ template].

(* ===================================================================== *)
(** * Properties of the registry *)
(* ===================================================================== *)

(** Every entry of the registry sits under the hash of its own domain. *)
Definition keyed_by_hash (d : Database) : Prop :=
  ∀ k e, d !! (hostRegistry, k) = Some e → k = hostHash (domain e).

(** The host whose write is the last one at [ref] among the writes for
    [hs], in order. *)
Fixpoint last_writer (hs : list string) (ref : string * string) : option string :=
  match hs with
  | [] => None
  | h :: rest =>
      match last_writer rest ref with
      | Some h' => Some h'
      | None => if decide (ref = (hostRegistry, hostHash h)) then Some h else None
      end
  end.

(** The characters of a lower-case hexadecimal number. *)
Definition is_lower_hex (c : ascii) : bool :=
  let n := nat_of_ascii c in
  (((48 <=? n) && (n <=? 57)) || ((97 <=? n) && (n <=? 102)))%nat.

(** What a request of a storage reaction may be: a [PURGE] sent at [t0],
    or a [GET] sent [10000] ms later or after that. *)
Definition purge_then_heat (t0 : Z) (e : Event) : Prop :=
  match e with
  | HttpsGet t o =>
      match method o with
      | PURGE => t = t0
      | GET => t0 + 10000 ≤ t
      end
  | _ => True
  end.

(* ===================================================================== *)
(** * More scenarios *)
(* ===================================================================== *)

(** A world with another runtime configuration. *)
Definition set_config (c : option CacheConfig) (w : World) : World := {|
  getPrimaryDomain := getPrimaryDomain w;
  getDomains := getDomains w;
  getDefaultDomain := getDefaultDomain w;
  getThemeFiles := getThemeFiles w;
  getAllDocuments := getAllDocuments w;
  getPublicPathToStorageFile := getPublicPathToStorageFile w;
  config_cache := c;
  network := network w;
  set_outcome := set_outcome w;
  timer_lag := timer_lag w
|}.

(** The deployment of [world_ok] with a document that has no [path]
    between the two that have one. *)
Definition world_missing_path : World := {|
  getPrimaryDomain := getPrimaryDomain world_ok;
  getDomains := getDomains world_ok;
  getDefaultDomain := getDefaultDomain world_ok;
  getThemeFiles := getThemeFiles world_ok;
  getAllDocuments := [mkDoc (Some ["/p1"]); mkDoc None; mkDoc (Some ["/p2"])];
  getPublicPathToStorageFile := getPublicPathToStorageFile world_ok;
  config_cache := None;
  network := network world_ok;
  set_outcome := set_outcome world_ok;
  timer_lag := 0%N
|}.

(** The snapshot of a document whose path list is [paths]. *)
Definition snapshot_with (paths : list string) : DocumentSnapshot :=
  mkSnap (Some (mkDoc (Some paths))).

(* ===================================================================== *)
(** * Facts about the string operations *)
(* ===================================================================== *)

Lemma string_length_app (a b : string) :
  String.length (a +:+ b) = (String.length a + String.length b)%nat.
Proof. induction a as [|c a IH]; simpl; [done | by rewrite IH]. Qed.

Lemma substring_0_all (s : string) :
  String.substring 0 (String.length s) s = s.
Proof. induction s as [|c s IH]; simpl; [done | by rewrite IH]. Qed.

Lemma substring_0_app (a b : string) :
  String.substring 0 (String.length a) (a +:+ b) = a.
Proof.
  induction a as [|c a IH]; simpl.
  - by destruct b.
  - by rewrite IH.
Qed.

Lemma substring_skip_app (a b : string) (m : nat) :
  String.substring (String.length a) m (a +:+ b) = String.substring 0 m b.
Proof. induction a as [|c a IH]; simpl; [done | apply IH]. Qed.

Lemma substring_app_suffix (a b : string) :
  String.substring (String.length a) (String.length b) (a +:+ b) = b.
Proof. by rewrite substring_skip_app, substring_0_all. Qed.

Lemma string_app_nil_l (b : string) : "" +:+ b = b.
Proof. reflexivity. Qed.

Lemma string_app_cons (c : ascii) (a b : string) :
  String c a +:+ b = String c (a +:+ b).
Proof. reflexivity. Qed.

(** Splitting a string at a position. *)
Lemma substring_split (s : string) (n : nat) :
  (n <= String.length s)%nat →
  s = String.substring 0 n s +:+ String.substring n (String.length s - n) s.
Proof.
  revert n. induction s as [|c s IH]; intros n Hn; simpl in *.
  - by destruct n.
  - destruct n as [|n]; simpl.
    + by rewrite substring_0_all.
    + rewrite string_app_cons. f_equal. apply IH. lia.
Qed.

Lemma prefix_app (a b : string) : String.prefix a (a +:+ b) = true.
Proof.
  induction a as [|c a IH]; simpl.
  - by destruct b.
  - destruct (ascii_dec c c); [apply IH | done].
Qed.

Lemma prefix_refl (a : string) : String.prefix a a = true.
Proof.
  induction a as [|c a IH]; simpl; [done|].
  destruct (ascii_dec c c); [apply IH | done].
Qed.

Lemma prefix_length (a s : string) :
  String.prefix a s = true → (String.length a <= String.length s)%nat.
Proof.
  revert a. induction s as [|c s IH]; intros [|d a]; simpl; try done; try lia.
  destruct (ascii_dec d c); [|done]. intros H. apply IH in H. lia.
Qed.

Lemma prefix_too_long (a s : string) :
  (String.length s < String.length a)%nat → String.prefix a s = false.
Proof.
  intros Hlt. destruct (String.prefix a s) eqn:E; [|done].
  apply prefix_length in E. lia.
Qed.

(** [endsWith] is the suffix relation. *)
Lemma endsWith_app (q suffix : string) : endsWith (q +:+ suffix) suffix = true.
Proof.
  unfold endsWith, js_length. rewrite string_length_app.
  destruct (Z.ltb_spec (Z.of_nat (String.length q + String.length suffix)
                        - Z.of_nat (String.length suffix)) 0) as [H|H]; [lia|].
  replace (Z.to_nat _) with (String.length q) by lia.
  rewrite substring_app_suffix. apply String.eqb_refl.
Qed.

Lemma endsWith_inv (s suffix : string) :
  endsWith s suffix = true → ∃ q, s = q +:+ suffix.
Proof.
  unfold endsWith, js_length.
  destruct (Z.ltb_spec (Z.of_nat (String.length s)
                        - Z.of_nat (String.length suffix)) 0) as [H|H]; [done|].
  intros E. apply String.eqb_eq in E.
  set (n := Z.to_nat (Z.of_nat (String.length s) - Z.of_nat (String.length suffix))) in *.
  exists (String.substring 0 n s).
  assert (Hn : (n <= String.length s)%nat) by lia.
  rewrite (substring_split s n Hn) at 1. f_equal.
  replace (String.length s - n)%nat with (String.length suffix) by lia.
  exact E.
Qed.

Lemma endsWith_iff (s suffix : string) :
  endsWith s suffix = true ↔ ∃ q, s = q +:+ suffix.
Proof.
  split; [apply endsWith_inv|]. intros [q ->]. apply endsWith_app.
Qed.

(** No occurrence can start where fewer units than the search string are
    left, so the scan keeps what it had found. *)
Lemma lastIndexOf_scan_short (pat s : string) (k found : Z) :
  (String.length s < String.length pat)%nat →
  lastIndexOf_scan pat s k found = found.
Proof.
  revert k found. induction s as [|c s IH]; intros k found Hlt; simpl.
  - destruct pat; [simpl in Hlt; lia | done].
  - change (match pat with
            | "" => true
            | String a s1' =>
                if ascii_dec a c then String.prefix s1' s else false
            end) with (String.prefix pat (String c s)).
    rewrite prefix_too_long by done. apply IH. simpl in Hlt. lia.
Qed.

Lemma lastIndexOf_scan_app (pat q : string) (k found : Z) :
  pat ≠ "" →
  lastIndexOf_scan pat (q +:+ pat) k found = k + js_length q.
Proof.
  intros Hne. revert k found.
  induction q as [|c q IH]; intros k found.
  - rewrite string_app_nil_l. unfold js_length. simpl.
    destruct pat as [|d pat]; [done|].
    cbn [lastIndexOf_scan]. rewrite prefix_refl.
    rewrite lastIndexOf_scan_short by (simpl; lia). lia.
  - rewrite string_app_cons. cbn [lastIndexOf_scan]. rewrite IH.
    unfold js_length. cbn [String.length]. lia.
Qed.

Lemma lastIndexOf_app (pat q : string) :
  pat ≠ "" → lastIndexOf (q +:+ pat) pat = js_length q.
Proof. intros H. unfold lastIndexOf. by rewrite lastIndexOf_scan_app. Qed.

(** Cutting a string at the length of its first part. *)
Lemma substr_0_app (a b : string) : substr (a +:+ b) 0 (js_length a) = a.
Proof.
  unfold substr, js_length. rewrite string_length_app.
  change (0 <? 0) with false. cbv iota.
  set (la := String.length a). set (lb := String.length b).
  replace (Z.min 0 (Z.of_nat (la + lb))) with 0 by lia.
  replace (Z.min (Z.max (Z.of_nat la) 0) (Z.of_nat (la + lb) - 0))
    with (Z.of_nat la) by lia.
  rewrite Nat2Z.id. change (Z.to_nat 0) with 0%nat. subst la lb.
  destruct (Z.leb_spec (Z.of_nat (String.length a)) 0) as [H|H].
  - destruct a; [done | simpl in H; lia].
  - apply substring_0_app.
Qed.

Lemma string_app_assoc (a b c : string) : (a +:+ b) +:+ c = a +:+ (b +:+ c).
Proof.
  induction a as [|x a IH]; [done|].
  rewrite !string_app_cons. by rewrite IH.
Qed.

(** The variants of a path that ends with [/index.html]. *)
Lemma filenameVariants_index (q : string) :
  filenameVariants (q +:+ "/index.html") = [q +:+ "/index.html"; q; q +:+ "/"].
Proof.
  unfold filenameVariants. rewrite endsWith_app.
  rewrite lastIndexOf_app by done. rewrite substr_0_app.
  replace (q +:+ "/index.html") with ((q +:+ "/") +:+ "index.html") at 2 3
    by (by rewrite string_app_assoc).
  rewrite lastIndexOf_app by done. by rewrite substr_0_app.
Qed.

Lemma filenameVariants_other (p : string) :
  endsWith p "/index.html" = false → filenameVariants p = [p].
Proof. intros H. unfold filenameVariants. by rewrite H. Qed.

(** SHA-256 on the test vectors of the standard. *)
Example sha256_empty :
  Sha256.toString (Sha256.SHA256 "") =
  "e3b0c44298fc1c149afbf4c8996fb92427ae41e4649b934ca495991b7852b855".
Proof. vm_compute. reflexivity. Qed.

Example sha256_abc :
  Sha256.toString (Sha256.SHA256 "abc") =
  "ba7816bf8f01cfea414140de5dae2223b00361a396177a9cb410ff61f20015ad".
Proof. vm_compute. reflexivity. Qed.

Example sha256_two_blocks :
  Sha256.toString
    (Sha256.SHA256 "abcdbcdecdefdefgefghfghighijhijkijkljklmklmnlmnomnopnopq") =
  "248d6a61d20638b8e5c026930c3e6039a33ce45964ff2167f6ecedd419db06c1".
Proof. vm_compute. reflexivity. Qed.

(* ===================================================================== *)
(** * Facts about promises *)
(* ===================================================================== *)

Lemma state_eta (st : State) : mkState (now st) (db st) = st.
Proof. by destruct st. Qed.

Lemma bind_fulfilled {A B} (m : M A) (k : A → M B) (st st' : State) a es :
  m st = mkResult (Fulfilled a) st' es →
  bind m k st = mkResult (settled (k a st')) (final (k a st')) (es ++ events (k a st')).
Proof. intros H. unfold bind. by rewrite H. Qed.

Lemma bind_rejected {A B} (m : M A) (k : A → M B) (st st' : State) e es :
  m st = mkResult (Rejected e) st' es →
  bind m k st = mkResult (Rejected e) st' es.
Proof. intros H. unfold bind. by rewrite H. Qed.

Lemma bind_pending {A B} (m : M A) (k : A → M B) (st st' : State) es :
  m st = mkResult Pending st' es →
  bind m k st = mkResult Pending st' es.
Proof. intros H. unfold bind. by rewrite H. Qed.

(** A loop whose body always hands back a value and leaves the state as
    it was runs to its end. *)
Lemma forM_stable {A B} (xs : list A) (body : A → M B) (st : State)
    (val : A → B) (ev : A → list Event) :
  (∀ x, x ∈ xs → body x st = mkResult (Fulfilled (val x)) st (ev x)) →
  forM xs body st = mkResult (Fulfilled (val <$> xs)) st (concat (ev <$> xs)).
Proof.
  induction xs as [|x xs IH]; intros Hbody; [done|].
  cbn [forM]. erewrite bind_fulfilled; [|apply Hbody; left].
  erewrite (bind_fulfilled (forM xs body));
    [|apply IH; intros y Hy; apply Hbody; by right].
  cbn. by rewrite app_nil_r.
Qed.

Lemma foldr_max_const (t : Z) (ts : list Z) :
  Forall (fun x => x = t) ts → foldr Z.max t ts = t.
Proof. induction 1 as [|x ts -> _ IH]; cbn; [done | rewrite IH; lia]. Qed.

Lemma all_values_fulfilled {A} (vs : list A) :
  all_values (Fulfilled <$> vs) = Some vs.
Proof. induction vs as [|v vs IH]; cbn; [done | by rewrite IH]. Qed.

Lemma all_rejected_fulfilled {A} (vs : list A) :
  all_rejected (Fulfilled <$> vs) = None.
Proof. by induction vs. Qed.

Lemma all_settle_fulfilled {A} (vs : list A) :
  all_settle (Fulfilled <$> vs) = Fulfilled vs.
Proof.
  unfold all_settle. by rewrite all_rejected_fulfilled, all_values_fulfilled.
Qed.

(** [Promise.all] is fulfilled only when each of its promises is. *)
Lemma all_values_Some {A} (ps : list (Promise A)) (vs : list A) :
  all_values ps = Some vs → ps = Fulfilled <$> vs.
Proof.
  revert vs. induction ps as [|[a|e|] ps IH]; intros vs; cbn; try done.
  - by intros [= <-].
  - destruct (all_values ps) as [vs'|] eqn:E; cbn; [|done].
    intros [= <-]. cbn. f_equal. by apply IH.
Qed.

Lemma all_settle_Fulfilled_inv {A} (ps : list (Promise A)) (vs : list A) :
  all_settle ps = Fulfilled vs → ps = Fulfilled <$> vs.
Proof.
  unfold all_settle. destruct (all_rejected ps); [done|].
  destruct (all_values ps) as [vs'|] eqn:E; [|done].
  intros [= <-]. by apply all_values_Some.
Qed.

(** With no rejection and one promise pending, [Promise.all] stays
    pending. *)
Lemma all_settle_pending {A} (ps : list (Promise A)) :
  (∀ p, p ∈ ps → ∀ e, p ≠ Rejected e) → Pending ∈ ps →
  all_settle ps = Pending.
Proof.
  intros Hnr Hp. unfold all_settle.
  assert (all_rejected ps = None) as ->.
  { clear Hp. induction ps as [|[a|e|] ps IH]; cbn; try done.
    - apply IH. intros p ?. apply Hnr. by right.
    - exfalso. by apply (Hnr (Rejected e) ltac:(left) e).
    - apply IH. intros p ?. apply Hnr. by right. }
  destruct (all_values ps) as [vs|] eqn:E; [|done].
  apply all_values_Some in E. subst ps.
  apply list_elem_of_fmap in Hp as (v & Hv & _). done.
Qed.

(* ===================================================================== *)
(** * Facts about the fan-out *)
(* ===================================================================== *)

Section FanOut.

Variable w : World.

Lemma cdn_call_run (m : Method) (host path : string) (st : State) :
  cdn_call w m host path st =
  mkResult (call_settles w m host path) st (call_events w m host path (now st)).
Proof.
  unfold call_settles, call_events.
  destruct m; unfold cdn_call, purgeFromCdn, heatUpCdn, bind, https_get;
    by destruct (https_outcome w _).
Qed.

Lemma spawn_cdn_call (m : Method) (host path : string) (st : State) :
  spawn (cdn_call w m host path) st =
  mkResult (Fulfilled (mkHandle (call_settles w m host path) (now st))) st
           (call_events w m host path (now st)).
Proof. unfold spawn. rewrite cdn_call_run. cbn. by rewrite state_eta. Qed.

Lemma fanout_loop_run (m : Method) snap variants (st : State) :
  fanout_loop w m snap variants st =
  mkResult (Fulfilled (fanout_handles w m snap variants (now st))) st
           (fanout_events w m snap variants (now st)).
Proof.
  unfold fanout_loop, fanout_handles, fanout_events.
  apply (forM_stable snap _ st
           (fun hostData =>
              (fun v => mkHandle (call_settles w m (domain hostData) v) (now st))
              <$> variants)
           (fun hostData =>
              concat ((fun v => call_events w m (domain hostData) v (now st))
                      <$> variants))).
  intros hostData _.
  apply (forM_stable variants _ st
           (fun v => mkHandle (call_settles w m (domain hostData) v) (now st))
           (fun v => call_events w m (domain hostData) v (now st))).
  intros v _. apply spawn_cdn_call.
Qed.

Lemma requests_app (es1 es2 : list Event) :
  requests (es1 ++ es2) = requests es1 ++ requests es2.
Proof. unfold requests. apply omap_app. Qed.

Lemma request_times_app (es1 es2 : list Event) :
  request_times (es1 ++ es2) = request_times es1 ++ request_times es2.
Proof. unfold request_times. apply omap_app. Qed.

Lemma requests_call_events (m : Method) host path t :
  requests (call_events w m host path t) = [mkOpts host 443 path m].
Proof. unfold call_events. by destruct (https_outcome w _). Qed.

Lemma request_times_call_events (m : Method) host path t :
  request_times (call_events w m host path t) = [t].
Proof. unfold call_events. by destruct (https_outcome w _). Qed.

(** The requests of the fan-out are one per pair. *)
Lemma requests_fanout_events (m : Method) snap variants t :
  requests (fanout_events w m snap variants t) = fanout m snap variants.
Proof.
  unfold fanout_events, fanout.
  induction snap as [|hostData snap IH]; [done|].
  cbn [fmap list_fmap concat list_prod]. rewrite requests_app, IH, fmap_app.
  f_equal. clear IH.
  induction variants as [|v variants IHv]; [done|].
  cbn. rewrite requests_app, requests_call_events. cbn. f_equal. apply IHv.
Qed.

Lemma request_times_fanout_events (m : Method) snap variants t :
  Forall (fun x => x = t) (request_times (fanout_events w m snap variants t)).
Proof.
  unfold fanout_events.
  induction snap as [|hostData snap IH]; [constructor|].
  cbn [fmap list_fmap concat]. rewrite request_times_app.
  apply Forall_app. split; [|apply IH]. clear IH.
  induction variants as [|v variants IHv]; [constructor|].
  cbn. rewrite request_times_app, request_times_call_events.
  by constructor.
Qed.

Lemma length_fanout (m : Method) (reg : list CachedDomain) (variants : list string) :
  length (fanout m reg variants) = (length reg * length variants)%nat.
Proof. unfold fanout. by rewrite length_fmap, length_prod. Qed.

Lemma settledAt_fanout_handles (m : Method) snap variants t :
  Forall (fun x => x = t) (settledAt <$> concat (fanout_handles w m snap variants t)).
Proof.
  unfold fanout_handles.
  induction snap as [|hostData snap IH]; [constructor|].
  cbn [fmap list_fmap concat]. rewrite fmap_app.
  apply Forall_app. split; [|apply IH].
  clear IH. induction variants as [|v variants IHv]; by constructor.
Qed.

Lemma outcome_fanout_handles (m : Method) snap variants t :
  outcome <$> concat (fanout_handles w m snap variants t) =
  fanout_promises w m snap variants.
Proof.
  unfold fanout_handles, fanout_promises.
  induction snap as [|hostData snap IH]; [done|].
  cbn [fmap list_fmap concat list_prod]. rewrite !fmap_app, IH. f_equal.
  clear IH. induction variants as [|v variants IHv]; [done|].
  cbn. f_equal. apply IHv.
Qed.

Lemma broadcast_run (m : Method) (variants : list string) (st : State) :
  broadcast w m variants st =
  mkResult (all_settle (fanout_promises w m (registry st) variants)) st
           (fanout_events w m (registry st) variants (now st)).
Proof.
  unfold broadcast.
  erewrite bind_fulfilled; [|reflexivity].
  erewrite bind_fulfilled; [|apply fanout_loop_run].
  unfold Promise_all. cbn [settled final events app].
  rewrite outcome_fanout_handles.
  rewrite foldr_max_const by apply settledAt_fanout_handles.
  by rewrite state_eta, app_nil_r.
Qed.

Lemma purgeCache_run (p : string) (st : State) :
  purgeCache w (Some p) st = broadcast w PURGE (filenameVariants p) st.
Proof. reflexivity. Qed.

Lemma heatCache_run (p : string) (delay : option Z) (st : State) :
  heatCache w (Some p) delay st =
  broadcast w GET (filenameVariants p)
    (mkState (now st + timer_delay (default 10000 delay) + Z.of_N (timer_lag w))
             (db st)).
Proof. reflexivity. Qed.

End FanOut.

(* ===================================================================== *)
(** * What [purgeCache] and [heatCache] send *)
(* ===================================================================== *)

(** The requests of [purgeCache]: one [PURGE] per registry entry and
    variant, whatever becomes of them. *)
Lemma purgeCache_requests (w : World) (p : string) (st : State) :
  requests (events (purgeCache w (Some p) st)) =
  fanout PURGE (registry st) (filenameVariants p).
Proof.
  rewrite purgeCache_run, broadcast_run. cbn [events].
  apply requests_fanout_events.
Qed.

(** The requests of [heatCache]: one [GET] per registry entry and
    variant. *)
Lemma heatCache_requests (w : World) (p : string) (delay : option Z) (st : State) :
  requests (events (heatCache w (Some p) delay st)) =
  fanout GET (registry st) (filenameVariants p).
Proof.
  rewrite heatCache_run, broadcast_run. cbn [events].
  apply requests_fanout_events.
Qed.

(** [heatCache] sends its requests when its timer fires. *)
Lemma heatCache_request_times (w : World) (p : string) (delay : option Z) (st : State) :
  Forall (fun t => t = now st + timer_delay (default 10000 delay) + Z.of_N (timer_lag w))
         (request_times (events (heatCache w (Some p) delay st))).
Proof.
  rewrite heatCache_run, broadcast_run. cbn [events now].
  apply request_times_fanout_events.
Qed.

Lemma string_neq_length (a b : string) :
  String.length a ≠ String.length b → a ≠ b.
Proof. by intros H ->. Qed.

Lemma variants_index_NoDup (q : string) :
  NoDup [q +:+ "/index.html"; q; q +:+ "/"].
Proof.
  assert (q +:+ "/index.html" ≠ q)
    by (apply string_neq_length; rewrite string_length_app; simpl; lia).
  assert (q +:+ "/index.html" ≠ q +:+ "/")
    by (apply string_neq_length; rewrite !string_length_app; simpl; lia).
  assert (q ≠ q +:+ "/")
    by (apply string_neq_length; rewrite string_length_app; simpl; lia).
  apply NoDup_cons. split.
  - rewrite !not_elem_of_cons. split_and!; [done | done | apply not_elem_of_nil].
  - apply NoDup_cons. split; [|apply NoDup_singleton].
    by rewrite list_elem_of_singleton.
Qed.

(** C6: for every path [p] the variants that [purgeCache] and [heatCache]
    request are a function of [p] alone: when [p] ends with [/index.html]
    they are the three distinct strings [p], [p] without the trailing
    [/index.html] and [p] without the trailing [index.html]; otherwise they
    are [p] alone.  [/about/index.html] gives [/about/index.html], [/about]
    and [/about/]. *)
Theorem variant_expansion (p : string) :
  ((∃ q, p = q +:+ "/index.html" ∧ p = (q +:+ "/") +:+ "index.html" ∧
         filenameVariants p = [p; q; q +:+ "/"] ∧ NoDup [p; q; q +:+ "/"])
   ∨ ((¬ ∃ q, p = q +:+ "/index.html") ∧ filenameVariants p = [p]))
  ∧ (∀ w st, requests (events (purgeCache w (Some p) st)) =
             fanout PURGE (registry st) (filenameVariants p))
  ∧ (∀ w st delay, requests (events (heatCache w (Some p) delay st)) =
                   fanout GET (registry st) (filenameVariants p))
  ∧ filenameVariants "/about/index.html" = ["/about/index.html"; "/about"; "/about/"].
Proof.
  split; [|split; [|split]].
  - destruct (endsWith p "/index.html") eqn:E.
    + left. apply endsWith_inv in E as [q ->]. exists q.
      split; [done|]. split; [by rewrite string_app_assoc|].
      split; [apply filenameVariants_index | apply variants_index_NoDup].
    + right. split; [|by apply filenameVariants_other].
      intros [q ->]. by rewrite endsWith_app in E.
  - intros. apply purgeCache_requests.
  - intros. apply heatCache_requests.
  - reflexivity.
Qed.

Lemma fanout_root_index_elem (m : Method) (reg : list CachedDomain) (hostData : CachedDomain) :
  hostData ∈ reg →
  mkOpts (domain hostData) 443 "" m ∈ fanout m reg ["/index.html"; ""; "/"].
Proof.
  intros Hin. unfold fanout.
  apply list_elem_of_fmap. exists (hostData, ""). split; [done|].
  apply list_elem_of_In, in_prod; apply list_elem_of_In; [done|].
  rewrite !elem_of_cons. auto.
Qed.

Lemma fanout_root_index_count (m : Method) (reg : list CachedDomain) :
  length (filter (fun o => path o = "") (fanout m reg ["/index.html"; ""; "/"])) =
  length reg.
Proof.
  unfold fanout. induction reg as [|hostData reg IH]; [done|].
  cbn [list_prod]. cbn [map app]. rewrite !fmap_cons.
  rewrite filter_cons_False by done.
  rewrite filter_cons_True by done.
  rewrite filter_cons_False by done.
  cbn [length]. f_equal. apply IH.
Qed.

(** C10: for the path [/index.html] the variants are [/index.html], the
    empty string and [/], so [purgeCache] and [heatCache] hand [https.get],
    for every registry entry, one request whose path is the empty
    string. *)
Theorem root_index_empty_path (w : World) (st : State) (delay : option Z) :
  filenameVariants "/index.html" = ["/index.html"; ""; "/"]
  ∧ (∀ hostData, hostData ∈ registry st →
       mkOpts (domain hostData) 443 "" PURGE
         ∈ requests (events (purgeCache w (Some "/index.html") st)))
  ∧ (∀ hostData, hostData ∈ registry st →
       mkOpts (domain hostData) 443 "" GET
         ∈ requests (events (heatCache w (Some "/index.html") delay st)))
  ∧ length (filter (fun o => path o = "")
              (requests (events (purgeCache w (Some "/index.html") st))))
    = length (registry st)
  ∧ length (filter (fun o => path o = "")
              (requests (events (heatCache w (Some "/index.html") delay st))))
    = length (registry st).
Proof.
  rewrite purgeCache_requests, heatCache_requests.
  change (filenameVariants "/index.html") with ["/index.html"; ""; "/"].
  split; [done|].
  split; [intros; by apply fanout_root_index_elem|].
  split; [intros; by apply fanout_root_index_elem|].
  split; apply fanout_root_index_count.
Qed.

Lemma root_index_empty_path_witness :
  mkCachedDomain "a.com" 0 ∈ registry st_two
  ∧ mkOpts "a.com" 443 "" PURGE
      ∈ requests (events (purgeCache world_ok (Some "/index.html") st_two))
  ∧ mkOpts "a.com" 443 "" GET
      ∈ requests (events (heatCache world_ok (Some "/index.html") None st_two)).
Proof.
  assert (H : mkCachedDomain "a.com" 0 ∈ registry st_two).
  { assert (registry st_two = [mkCachedDomain "b.com" 0; mkCachedDomain "a.com" 0])
      as -> by (vm_compute; reflexivity).
    rewrite !elem_of_cons. auto. }
  split; [exact H|].
  pose proof (root_index_empty_path world_ok st_two None) as (_ & Hp & Hg & _).
  split; [exact (Hp _ H) | exact (Hg _ H)].
Defined.

(* ===================================================================== *)
(** * A single CDN call *)
(* ===================================================================== *)

(** When a response arrives the promise is fulfilled, whatever the
    status. *)
Lemma cdn_call_response (w : World) (m : Method) (host path : string) (st : State)
    (statusCode : Z) (statusMessage : string) :
  https_outcome w (mkOpts host 443 path m) = Response statusCode statusMessage →
  settled (cdn_call w m host path st) = Fulfilled tt
  ∧ events (cdn_call w m host path st) = [HttpsGet (now st) (mkOpts host 443 path m)].
Proof.
  intros H. rewrite cdn_call_run. unfold call_settles, call_events.
  by rewrite H.
Qed.

Lemma unescaped_app (a b : string) :
  unescaped (a +:+ b) = unescaped a || unescaped b.
Proof.
  induction a as [|c a IH]; [done|].
  rewrite string_app_cons. cbn [unescaped]. by rewrite IH, orb_assoc.
Qed.

(** The variants of a path hold the characters Node refuses exactly when
    the path does. *)
Lemma filenameVariants_unescaped (p v : string) :
  v ∈ filenameVariants p → unescaped v = unescaped p.
Proof.
  destruct (endsWith p "/index.html") eqn:E.
  - apply endsWith_inv in E as [q ->]. rewrite filenameVariants_index.
    rewrite !elem_of_cons, elem_of_nil.
    intros [->|[->|[->|[]]]]; rewrite ?unescaped_app; cbn;
      by rewrite ?orb_false_r.
  - rewrite filenameVariants_other by done.
    by intros ->%list_elem_of_singleton.
Qed.

Lemma https_outcome_Throws (w : World) (o : RequestOptions) (message : string) :
  https_outcome w o = Throws message → unescaped (path o) = true.
Proof.
  unfold https_outcome. destruct (unescaped (path o)); [done|].
  by destruct (network w o).
Qed.

Lemma https_outcome_unescaped (w : World) (o : RequestOptions) :
  unescaped (path o) = true →
  https_outcome w o = Throws "Request path contains unescaped characters".
Proof. intros H. unfold https_outcome. by rewrite H. Qed.

(** A call is rejected only for a path that Node refuses. *)
Lemma call_settles_Rejected (w : World) (m : Method) (host path : string)
    (e : JsError) :
  call_settles w m host path = Rejected e → unescaped path = true.
Proof.
  unfold call_settles.
  destruct (https_outcome w (mkOpts host 443 path m)) eqn:E; try done.
  intros _. by apply https_outcome_Throws in E.
Qed.

Lemma cdn_call_not_rejected (w : World) (m : Method) (host path : string)
    (st : State) (e : JsError) :
  unescaped path = false →
  settled (cdn_call w m host path st) ≠ Rejected e.
Proof.
  intros Hesc. rewrite cdn_call_run. cbn [settled]. intros Hrej.
  apply call_settles_Rejected in Hrej. congruence.
Qed.

(** For a path that Node refuses the call of [https.get] throws and the
    promise is rejected. *)
Lemma cdn_call_unescaped (w : World) (m : Method) (host path : string) (st : State) :
  unescaped path = true →
  settled (cdn_call w m host path st) =
    Rejected (TypeError "Request path contains unescaped characters")
  ∧ events (cdn_call w m host path st) = [HttpsGet (now st) (mkOpts host 443 path m)].
Proof.
  intros H. rewrite cdn_call_run. unfold call_settles, call_events.
  by rewrite (https_outcome_unescaped w (mkOpts host 443 path m) H).
Qed.

(** When the request emits ['error'] instead, the promise is never
    settled and the error is raised outside the module. *)
Lemma cdn_call_error (w : World) (m : Method) (host path : string) (st : State)
    (code : string) :
  https_outcome w (mkOpts host 443 path m) = RequestError code →
  settled (cdn_call w m host path st) = Pending
  ∧ events (cdn_call w m host path st) =
      [HttpsGet (now st) (mkOpts host 443 path m); UncaughtError code].
Proof.
  intros H. rewrite cdn_call_run. unfold call_settles, call_events.
  by rewrite H.
Qed.

(** One request of the fan-out of a path that is never answered keeps
    the whole fan-out from completing. *)
Lemma broadcast_pending (w : World) (m : Method) (p : string)
    (st : State) (hostData : CachedDomain) (v code : string) :
  hostData ∈ registry st → v ∈ filenameVariants p →
  https_outcome w (mkOpts (domain hostData) 443 v m) = RequestError code →
  settled (broadcast w m (filenameVariants p) st) = Pending.
Proof.
  intros Hh Hv Herr. rewrite broadcast_run. cbn [settled].
  assert (Hesc : unescaped p = false).
  { rewrite <- (filenameVariants_unescaped p v Hv).
    destruct (unescaped v) eqn:E; [|done].
    by rewrite (https_outcome_unescaped w (mkOpts (domain hostData) 443 v m) E)
      in Herr. }
  apply all_settle_pending.
  - intros pr Hp e ->. unfold fanout_promises in Hp.
    apply list_elem_of_fmap in Hp as ([hd' v'] & Hp & Hin).
    symmetry in Hp. apply call_settles_Rejected in Hp. cbn [snd] in Hp.
    apply list_elem_of_In, in_prod_iff in Hin as [_ Hv'].
    apply list_elem_of_In in Hv'.
    rewrite (filenameVariants_unescaped p v' Hv') in Hp. congruence.
  - unfold fanout_promises. apply list_elem_of_fmap.
    exists (hostData, v). split.
    + unfold call_settles. cbn [fst snd]. by rewrite Herr.
    + apply list_elem_of_In, in_prod; by apply list_elem_of_In.
Qed.

(** C2 (the code departs from it): when the connection to [a.com] is
    refused, the promises of [purgeFromCdn] and [heatUpCdn] are never
    settled, and the error leaves the module as an uncaught exception. *)
Theorem cdn_call_refused_never_settles :
  settled (purgeFromCdn world_refused "a.com" "/p1" st_empty) = Pending
  ∧ events (purgeFromCdn world_refused "a.com" "/p1" st_empty) =
      [HttpsGet 0 (mkOpts "a.com" 443 "/p1" PURGE); UncaughtError "ECONNREFUSED"]
  ∧ settled (heatUpCdn world_refused "a.com" "/p1" st_empty) = Pending
  ∧ events (heatUpCdn world_refused "a.com" "/p1" st_empty) =
      [HttpsGet 0 (mkOpts "a.com" 443 "/p1" GET); UncaughtError "ECONNREFUSED"].
Proof. repeat split. Qed.

(** C3 (the code departs from it): with [a.com] registered and its
    connection refused, [purgeCache] sends its one request and then never
    completes. *)
Theorem purge_refused_never_completes :
  registry st_one = [mkCachedDomain "a.com" 0]
  ∧ requests (events (purgeCache world_refused (Some "/p1") st_one)) =
      [mkOpts "a.com" 443 "/p1" PURGE]
  ∧ settled (purgeCache world_refused (Some "/p1") st_one) = Pending.
Proof. vm_compute. repeat split. Qed.

(* ===================================================================== *)
(** * The theme change *)
(* ===================================================================== *)

(** A purge that is started and not awaited: its requests go out, the
    caller's state is as before. *)
Lemma spawn_purgeCache_run (w : World) (p : string) (st : State) :
  spawn (purgeCache w (Some p)) st =
  mkResult
    (Fulfilled (mkHandle
       (all_settle (fanout_promises w PURGE (registry st) (filenameVariants p)))
       (now st)))
    st
    (fanout_events w PURGE (registry st) (filenameVariants p) (now st)).
Proof.
  unfold spawn. rewrite purgeCache_run, broadcast_run. cbn.
  by rewrite state_eta.
Qed.

Lemma requests_concat_fmap {A} (f : A → list Event) (l : list A) :
  requests (concat (f <$> l)) = l ≫= (fun x => requests (f x)).
Proof.
  induction l as [|x l IH]; [done|].
  cbn. by rewrite requests_app, IH.
Qed.

Lemma purge_document_run (w : World) (document : DocumentData) (p : string)
    (st : State) :
  first_path (mkSnap (Some document)) = Some p →
  bind (document_path0 document) (fun p => spawn (purgeCache w p)) st =
  mkResult
    (Fulfilled (mkHandle
       (all_settle (fanout_promises w PURGE (registry st) (filenameVariants p)))
       (now st)))
    st
    (fanout_events w PURGE (registry st) (filenameVariants p) (now st)).
Proof.
  unfold first_path. cbn [data].
  destruct document as [[[|p' l]|]]; try done. intros [= ->].
  unfold document_path0. cbn [doc_path].
  erewrite bind_fulfilled; [|reflexivity]. cbn beta.
  change ((p :: l) !! 0%nat) with (Some p).
  by rewrite spawn_purgeCache_run.
Qed.

Lemma omap_all_Some {A B} (f : A → option B) (l : list A) (b : B) :
  Forall (fun x => is_Some (f x)) l →
  omap f l = (fun x => default b (f x)) <$> l.
Proof.
  induction 1 as [|x l [y Hy] _ IH]; [done|].
  cbn. by rewrite Hy, IH.
Qed.

(** The requests of a theme change, for documents that all have a first
    path: one round per site domain, each round purging every path on
    every registered domain. *)
Lemma theme_change_requests (w : World) (previousTheme : string)
    (newTheme : option string) (st : State) :
  Forall (fun document => is_Some (first_path (mkSnap (Some document))))
         (getAllDocuments w) →
  requests (events (tanam_onThemeChangeUpdateCache w
                      (mkChange (Some previousTheme) newTheme) st)) =
  getDomains w ≫= (fun _ => theme_round w previousTheme (registry st)).
Proof.
  intros Hdocs. unfold tanam_onThemeChangeUpdateCache. cbn [before].
  do 3 (erewrite bind_fulfilled; [|reflexivity]).
  cbn [settled final events app].
  set (handle := fun p => mkHandle
         (all_settle (fanout_promises w PURGE (registry st) (filenameVariants p)))
         (now st)).
  set (evs := fun p => fanout_events w PURGE (registry st) (filenameVariants p) (now st)).
  set (public := fun themeFile => getPublicPathToStorageFile w (name themeFile)).
  set (first := fun document => default "" (first_path (mkSnap (Some document)))).
  erewrite (bind_fulfilled (forM (getDomains w) _)).
  2:{ apply (forM_stable (getDomains w) _ st
               (fun _ => (handle <$> (public <$> getThemeFiles w previousTheme))
                         ++ (handle <$> (first <$> getAllDocuments w)))
               (fun _ => concat (evs <$> theme_paths w previousTheme))).
      intros d _.
      erewrite bind_fulfilled.
      2:{ apply (forM_stable _ _ st (handle ∘ public) (evs ∘ public)).
          intros themeFile _. apply spawn_purgeCache_run. }
      erewrite (bind_fulfilled (forM (getAllDocuments w) _)).
      2:{ apply (forM_stable _ _ st (handle ∘ first) (evs ∘ first)).
          intros document Hin.
          pose proof (proj1 (Forall_forall _ _) Hdocs document Hin) as [p Hp].
          rewrite (purge_document_run w document p st Hp).
          unfold first, compose. by rewrite Hp. }
      cbn [ret settled final events].
      rewrite app_nil_r, !list_fmap_compose. f_equal.
      unfold theme_paths. rewrite (omap_all_Some _ _ "" Hdocs).
      rewrite fmap_app, concat_app. reflexivity. }
  assert (Hreq : requests
            (concat ((fun _ : string => concat (evs <$> theme_paths w previousTheme))
                     <$> getDomains w)) =
          getDomains w ≫= (fun _ => theme_round w previousTheme (registry st))).
  { assert (Hround : requests (concat (evs <$> theme_paths w previousTheme)) =
                     theme_round w previousTheme (registry st)).
    { unfold theme_round. rewrite requests_concat_fmap.
      induction (theme_paths w previousTheme) as [|p ps IHp]; [done|].
      cbn [mbind list_bind]. rewrite IHp. f_equal.
      apply requests_fanout_events. }
    rewrite requests_concat_fmap.
    induction (getDomains w) as [|d ds IH]; [done|].
    cbn [mbind list_bind]. by rewrite IH, Hround. }
  unfold bind, Promise_all, ret. cbn [settled final events].
  destruct (all_settle _); cbn [events]; by rewrite ?app_nil_r.
Qed.

(** Each round sends one request per path variant and registered domain,
    and there is one round per site domain. *)
Lemma length_bind_const {A B} (l : list A) (k : list B) :
  length (l ≫= (fun _ => k)) = (length l * length k)%nat.
Proof.
  induction l as [|x l IH]; [done|].
  cbn [mbind list_bind]. rewrite length_app.
  change (length (l ≫= (fun _ => k))) with (length (l ≫= (fun _ : A => k))) in IH.
  cbn [length]. lia.
Qed.

Lemma theme_change_request_count (w : World) (previousTheme : string)
    (newTheme : option string) (st : State) :
  Forall (fun document => is_Some (first_path (mkSnap (Some document))))
         (getAllDocuments w) →
  length (requests (events (tanam_onThemeChangeUpdateCache w
                              (mkChange (Some previousTheme) newTheme) st))) =
  (length (getDomains w) * length (theme_round w previousTheme (registry st)))%nat.
Proof.
  intros Hdocs. rewrite theme_change_requests by done.
  apply length_bind_const.
Qed.

(** C1 (the code departs from it): in the scenario of the claim the loop
    over [site.getDomains()] calls [purgeCache] once per site domain, and
    [purgeCache] sends to every registered domain, so each of the six
    (domain, path) pairs is purged twice: twelve [PURGE] requests, and no
    [GET]. *)
Theorem theme_change_purges_each_pair_twice :
  let r := tanam_onThemeChangeUpdateCache world_ok
             (mkChange (Some "classic") (Some "modern")) st_two in
  domain <$> registry st_two ≡ₚ ["a.com"; "b.com"]
  ∧ length (requests (events r)) = 12%nat
  ∧ Forall (fun o => count_occ RequestOptions_eq_dec (requests (events r)) o = 2%nat)
      [ mkOpts "a.com" 443 "/themes/classic/t1.css" PURGE;
        mkOpts "a.com" 443 "/p1" PURGE;
        mkOpts "a.com" 443 "/p2" PURGE;
        mkOpts "b.com" 443 "/themes/classic/t1.css" PURGE;
        mkOpts "b.com" 443 "/p1" PURGE;
        mkOpts "b.com" 443 "/p2" PURGE ]
  ∧ filter (fun o => method o = GET) (requests (events r)) = [].
Proof.
  cbv zeta. split; [|split; [|split]].
  - assert (domain <$> registry st_two = ["b.com"; "a.com"]) as ->
      by (vm_compute; reflexivity).
    apply Permutation_swap.
  - vm_compute. reflexivity.
  - repeat (apply Forall_cons; split; [vm_compute; reflexivity|]).
    apply Forall_nil_2.
  - vm_compute. reflexivity.
Qed.

(* ===================================================================== *)
(** * Warming *)
(* ===================================================================== *)

Lemma timer_delay_ge (delay : Z) : delay ≤ TIMEOUT_MAX → delay ≤ timer_delay delay.
Proof.
  unfold timer_delay, TIMEOUT_MAX. intros H.
  destruct (Z.leb_spec 1 delay); destruct (Z.leb_spec delay (2 ^ 31 - 1)); cbn; lia.
Qed.

(** C4, as the code has it: for every path and every delay of at most
    [2^31 - 1] ms, the default of 10000 ms when none is given, [heatCache]
    sends no request before the delay has passed, and then one [GET] per
    registry entry and variant. *)
Theorem heat_waits_then_fans_out (w : World) (p : string) (delay : option Z) (st : State) :
  default 10000 delay ≤ TIMEOUT_MAX →
  Forall (fun t => now st + default 10000 delay ≤ t)
         (request_times (events (heatCache w (Some p) delay st)))
  ∧ requests (events (heatCache w (Some p) delay st)) =
      fanout GET (registry st) (filenameVariants p)
  ∧ length (requests (events (heatCache w (Some p) delay st))) =
      (length (registry st) * length (filenameVariants p))%nat.
Proof.
  intros Hmax. split; [|split].
  - eapply Forall_impl; [apply heatCache_request_times|].
    intros t ->. cbn beta. pose proof (timer_delay_ge _ Hmax). lia.
  - apply heatCache_requests.
  - rewrite heatCache_requests. apply length_fanout.
Qed.

Lemma heat_waits_then_fans_out_witness :
  default 10000 None ≤ TIMEOUT_MAX
  ∧ Forall (fun t => now st_two + default 10000 None ≤ t)
      (request_times (events (heatCache world_ok (Some "/about/index.html") None st_two)))
  ∧ requests (events (heatCache world_ok (Some "/about/index.html") None st_two)) =
      fanout GET (registry st_two) (filenameVariants "/about/index.html")
  ∧ length (requests (events (heatCache world_ok (Some "/about/index.html") None st_two))) =
      (length (registry st_two) * length (filenameVariants "/about/index.html"))%nat.
Proof.
  split; [vm_compute; discriminate|].
  apply (heat_waits_then_fans_out world_ok "/about/index.html" None st_two).
  vm_compute; discriminate.
Defined.

(** C4 fails as stated: a delay of [2^31] ms is beyond what the timer
    takes, the timer fires after 1 ms, and the request goes out then. *)
Lemma heat_delay_overflow :
  now st_one = 0
  ∧ request_times
      (events (heatCache world_ok (Some "/p1") (Some 2147483648) st_one)) = [1]
  ∧ requests
      (events (heatCache world_ok (Some "/p1") (Some 2147483648) st_one)) =
      [mkOpts "a.com" 443 "/p1" GET]
  ∧ ¬ Forall (fun t => now st_one + 2147483648 ≤ t)
        (request_times
           (events (heatCache world_ok (Some "/p1") (Some 2147483648) st_one))).
Proof.
  split; [reflexivity|].
  split; [vm_compute; reflexivity|].
  split; [vm_compute; reflexivity|].
  intros H. vm_compute in H. inversion H as [|t ts Hle _]. by apply Hle.
Qed.

(* ===================================================================== *)
(** * The cache header *)
(* ===================================================================== *)

Lemma config_lookup_merged (overrides : CacheConfig) (key : string) (v : JsValue) :
  CONFIG_DEFAULT !! key = Some v →
  (overrides ∪ CONFIG_DEFAULT) !! key = Some (default v (overrides !! key)).
Proof.
  intros Hd. rewrite lookup_union, Hd.
  by destruct (overrides !! key).
Qed.

(** C9: [getCacheHeader()] is [public, max-age=<max_age>, s-maxage=<s_max_age>]
    with each value taken from the runtime configuration when it is set
    there and from the defaults 600 and 31536000 otherwise; with no
    overrides it is [public, max-age=600, s-maxage=31536000], and with
    [max_age] overridden by 30 it contains [max-age=30]. *)
Theorem cache_header (w : World) :
  getCacheHeader w =
    "public, max-age="
      +:+ js_template (Some (default (JsNumber 600)
                               (default ∅ (config_cache w) !! "max_age")))
      +:+ ", s-maxage="
      +:+ js_template (Some (default (JsNumber 31536000)
                               (default ∅ (config_cache w) !! "s_max_age")))
  ∧ (default ∅ (config_cache w) = ∅ →
     getCacheHeader w = "public, max-age=600, s-maxage=31536000")
  ∧ (∀ v, default ∅ (config_cache w) !! "max_age" = Some v →
          js_template (Some v) = "30" →
          contains (getCacheHeader w) "max-age=30").
Proof.
  assert (Heq : getCacheHeader w =
    "public, max-age="
      +:+ js_template (Some (default (JsNumber 600)
                               (default ∅ (config_cache w) !! "max_age")))
      +:+ ", s-maxage="
      +:+ js_template (Some (default (JsNumber 31536000)
                               (default ∅ (config_cache w) !! "s_max_age")))).
  { unfold getCacheHeader. cbv zeta.
    rewrite (config_lookup_merged _ "max_age" (JsNumber 600)) by reflexivity.
    by rewrite (config_lookup_merged _ "s_max_age" (JsNumber 31536000)) by reflexivity. }
  split; [exact Heq|]. split.
  - intros Hnone. rewrite Heq, Hnone, !lookup_empty. reflexivity.
  - intros v Hv H30. rewrite Heq, Hv.
    change (default (JsNumber 600) (Some v)) with v. rewrite H30.
    exists "public, ". eexists. reflexivity.
Qed.

Lemma cache_header_witness :
  default ∅ (config_cache world_ok) = ∅
  ∧ default ∅ (config_cache world_max_age_30) !! "max_age" = Some (JsString "30")
  ∧ js_template (Some (JsString "30")) = "30"
  ∧ getCacheHeader world_ok = "public, max-age=600, s-maxage=31536000"
  ∧ contains (getCacheHeader world_max_age_30) "max-age=30".
Proof.
  split; [reflexivity|]. split; [reflexivity|]. split; [reflexivity|]. split.
  - apply (cache_header world_ok). reflexivity.
  - apply (cache_header world_max_age_30) with (v := JsString "30"); reflexivity.
Defined.

(* ===================================================================== *)
(** * Registration *)
(* ===================================================================== *)

Lemma spawn_child_set (w : World) (currentHost : string) (st : State) :
  spawn (child_set w hostRegistry (hostHash currentHost) currentHost) st =
  mkResult (Fulfilled (mkHandle (set_settles w currentHost) (now st)))
           (mkState (now st) (upsert w (now st) (db st) currentHost))
           [DbSet (hostRegistry, hostHash currentHost) currentHost].
Proof.
  unfold spawn, child_set, set_settles, upsert.
  by destruct (set_outcome w _).
Qed.

Lemma register_loop_run (w : World) (hs : list string) (t : Z) (d : Database) :
  forM hs (fun currentHost =>
             spawn (child_set w hostRegistry (hostHash currentHost) currentHost))
       (mkState t d) =
  mkResult (Fulfilled ((fun h => mkHandle (set_settles w h) t) <$> hs))
           (mkState t (foldl (upsert w t) d hs))
           ((fun h => DbSet (hostRegistry, hostHash h) h) <$> hs).
Proof.
  revert d. induction hs as [|h hs IH]; intros d; [done|].
  cbn [forM]. erewrite bind_fulfilled; [|apply spawn_child_set].
  cbn [now db]. erewrite (bind_fulfilled (forM hs _)); [|apply IH].
  cbn. by rewrite app_nil_r.
Qed.

Lemma registerRequestHost_run (w : World) (host : string) (st : State) :
  registerRequestHost w host st =
  mkResult (all_settle (set_settles w <$> hosts w host))
           (mkState (now st) (foldl (upsert w (now st)) (db st) (hosts w host)))
           ((fun h => DbSet (hostRegistry, hostHash h) h) <$> hosts w host).
Proof.
  unfold registerRequestHost. destruct st as [t d].
  erewrite bind_fulfilled; [|apply register_loop_run].
  unfold Promise_all. cbn [settled final events now db].
  rewrite <- !list_fmap_compose, app_nil_r. f_equal.
  f_equal. apply foldr_max_const.
  induction (hosts w host); by constructor.
Qed.

Lemma writes_DbSet (hs : list string) :
  writes ((fun h => DbSet (hostRegistry, hostHash h) h) <$> hs) =
  (fun h => ((hostRegistry, hostHash h), h)) <$> hs.
Proof. induction hs as [|h hs IH]; [done|]. cbn. f_equal. apply IH. Qed.

Lemma upsert_acknowledged (w : World) (t : Z) (d : Database) (h : string) :
  set_outcome w (hostRegistry, hostHash h) = Acknowledged →
  upsert w t d h = <[(hostRegistry, hostHash h) := mkCachedDomain h t]> d.
Proof. intros H. unfold upsert. by rewrite H. Qed.

Lemma foldl_upsert_acknowledged (w : World) (t : Z) (hs : list string) (d : Database) :
  (∀ h, h ∈ hs → set_outcome w (hostRegistry, hostHash h) = Acknowledged) →
  foldl (upsert w t) d hs =
  foldl (fun d h => <[(hostRegistry, hostHash h) := mkCachedDomain h t]> d) d hs.
Proof.
  revert d. induction hs as [|h hs IH]; intros d Hack; [done|].
  cbn [foldl]. rewrite upsert_acknowledged by (apply Hack; left).
  apply IH. intros h' ?. apply Hack. by right.
Qed.

Lemma set_settles_Fulfilled (w : World) (h : string) :
  set_settles w h = Fulfilled tt ↔
  set_outcome w (hostRegistry, hostHash h) = Acknowledged.
Proof. unfold set_settles. by destruct (set_outcome w _). Qed.

(** [Promise.all] over the writes is fulfilled exactly when the store has
    acknowledged each of them. *)
Lemma register_fulfilled_iff (w : World) (hs : list string) :
  (∃ vs, all_settle (set_settles w <$> hs) = Fulfilled vs) ↔
  (∀ h, h ∈ hs → set_outcome w (hostRegistry, hostHash h) = Acknowledged).
Proof.
  split.
  - intros [vs Hvs] h Hh. apply all_settle_Fulfilled_inv in Hvs.
    apply set_settles_Fulfilled.
    assert (Hin : set_settles w h ∈ set_settles w <$> hs)
      by (apply list_elem_of_fmap; eauto).
    rewrite Hvs in Hin. apply list_elem_of_fmap in Hin as ([] & -> & _). done.
  - intros Hack. exists ((fun _ => tt) <$> hs).
    rewrite <- all_settle_fulfilled. f_equal.
    rewrite <- list_fmap_compose. apply Forall_fmap_ext_1, Forall_forall.
    intros h Hh. cbn. by apply set_settles_Fulfilled, Hack.
Qed.

(* ===================================================================== *)
(** * The registry key *)
(* ===================================================================== *)

Lemma toLowerCase_app (a b : string) :
  toLowerCase (a +:+ b) = toLowerCase a +:+ toLowerCase b.
Proof.
  induction a as [|c a IH]; [done|].
  rewrite string_app_cons. cbn [toLowerCase].
  by rewrite string_app_cons, IH.
Qed.

Lemma hex_digit_lower (d : Z) :
  0 ≤ d < 16 → ascii_toLowerCase (Sha256.hex_digit d) = Sha256.hex_digit d.
Proof.
  intros Hd.
  assert (d = 0 ∨ d = 1 ∨ d = 2 ∨ d = 3 ∨ d = 4 ∨ d = 5 ∨ d = 6 ∨ d = 7 ∨
          d = 8 ∨ d = 9 ∨ d = 10 ∨ d = 11 ∨ d = 12 ∨ d = 13 ∨ d = 14 ∨ d = 15)
    as Hcases by lia.
  repeat (destruct Hcases as [->|Hcases]; [reflexivity|]).
  by subst.
Qed.

Lemma land_15_bounds (x : Z) : 0 ≤ Z.land x 15 < 16.
Proof.
  change 15 with (Z.ones 4). rewrite Z.land_ones by lia.
  apply Z.mod_pos_bound. lia.
Qed.

Lemma hex_of_word_lower (n : nat) (x : Z) :
  toLowerCase (Sha256.hex_of_word n x) = Sha256.hex_of_word n x.
Proof.
  induction n as [|n IH]; [done|].
  cbn [Sha256.hex_of_word toLowerCase].
  by rewrite IH, hex_digit_lower by apply land_15_bounds.
Qed.

(** The digits that crypto-js prints are lower case already: lowering
    the digest changes nothing. *)
Lemma toString_lower (words : list Z) :
  toLowerCase (Sha256.toString words) = Sha256.toString words.
Proof.
  induction words as [|x words IH]; [done|].
  unfold Sha256.toString in *. cbn [fold_right].
  by rewrite toLowerCase_app, hex_of_word_lower, IH.
Qed.

Lemma hostHash_digest (host : string) :
  hostHash host = Sha256.toString (Sha256.SHA256 host).
Proof. apply toString_lower. Qed.

(** C8: [registerRequestHost(host)] writes the entry of [host] at
    [cacheDomains/<SHA-256 of host>]; when [host] ends with
    [.cloudfunctions.net], and only then, it also writes the entry of the
    default domain at [cacheDomains/<SHA-256 of the default domain>].  Its
    promise is fulfilled exactly when every one of these writes has been
    acknowledged, and the store then holds them. *)
Theorem register_upserts (w : World) (host : string) (st : State) :
  ((∃ q, host = q +:+ ".cloudfunctions.net") →
   writes (events (registerRequestHost w host st)) =
     [ (("cacheDomains", Sha256.toString (Sha256.SHA256 host)), host);
       (("cacheDomains", Sha256.toString (Sha256.SHA256 (getDefaultDomain w))),
        getDefaultDomain w) ]
   ∧ ((∃ vs, settled (registerRequestHost w host st) = Fulfilled vs) ↔
      set_outcome w ("cacheDomains", Sha256.toString (Sha256.SHA256 host))
        = Acknowledged
      ∧ set_outcome w ("cacheDomains",
                       Sha256.toString (Sha256.SHA256 (getDefaultDomain w)))
        = Acknowledged)
   ∧ ((∃ vs, settled (registerRequestHost w host st) = Fulfilled vs) →
      db (final (registerRequestHost w host st)) =
        <[("cacheDomains", Sha256.toString (Sha256.SHA256 (getDefaultDomain w)))
          := mkCachedDomain (getDefaultDomain w) (now st)]>
          (<[("cacheDomains", Sha256.toString (Sha256.SHA256 host))
             := mkCachedDomain host (now st)]> (db st))))
  ∧ ((¬ ∃ q, host = q +:+ ".cloudfunctions.net") →
     writes (events (registerRequestHost w host st)) =
       [ (("cacheDomains", Sha256.toString (Sha256.SHA256 host)), host) ]
     ∧ ((∃ vs, settled (registerRequestHost w host st) = Fulfilled vs) ↔
        set_outcome w ("cacheDomains", Sha256.toString (Sha256.SHA256 host))
          = Acknowledged)
     ∧ ((∃ vs, settled (registerRequestHost w host st) = Fulfilled vs) →
        db (final (registerRequestHost w host st)) =
          <[("cacheDomains", Sha256.toString (Sha256.SHA256 host))
            := mkCachedDomain host (now st)]> (db st))).
Proof.
  rewrite registerRequestHost_run. cbn [events settled final db].
  rewrite writes_DbSet, register_fulfilled_iff. unfold hosts.
  change "cacheDomains" with hostRegistry. rewrite <- !hostHash_digest.
  split.
  - intros Hsuffix. apply endsWith_iff in Hsuffix. rewrite Hsuffix.
    cbn [app fmap list_fmap]. split; [done|]. split.
    + split.
      * intros Hall. split; apply Hall; rewrite !elem_of_cons; auto.
      * intros [Hh Hd] h Hin. rewrite !elem_of_cons, elem_of_nil in Hin.
        by destruct Hin as [->|[->|[]]].
    + intros Hall. cbn [foldl].
      rewrite !upsert_acknowledged by (apply Hall; rewrite !elem_of_cons; auto).
      done.
  - intros Hsuffix.
    assert (endsWith host ".cloudfunctions.net" = false) as ->.
    { destruct (endsWith host ".cloudfunctions.net") eqn:E; [|done].
      exfalso. by apply Hsuffix, endsWith_iff. }
    cbn [app fmap list_fmap]. split; [done|]. split.
    + split.
      * intros Hall. apply Hall. left.
      * intros Hh h ->%list_elem_of_singleton. done.
    + intros Hall. cbn [foldl].
      by rewrite upsert_acknowledged by (apply Hall; left).
Qed.

Lemma register_upserts_witness :
  (∃ q, "abc.cloudfunctions.net" = q +:+ ".cloudfunctions.net")
  ∧ writes (events (registerRequestHost world_ok "abc.cloudfunctions.net" st_empty)) =
      [ (("cacheDomains",
          "2136fe6d364b9d13a01c598bac2994e9993ecac10a2e3b9652dc2d25d544b801"),
         "abc.cloudfunctions.net");
        (("cacheDomains",
          "010e4f9c03f3817043929e8da63dfa6ead48f6ed51e5c06cec5b8a0a314a0e7f"),
         "tanam.firebaseapp.com") ]
  ∧ (¬ ∃ q, "a.com" = q +:+ ".cloudfunctions.net")
  ∧ writes (events (registerRequestHost world_ok "a.com" st_empty)) =
      [ (("cacheDomains",
          "d6c1754dbbf0bc91d7d6845c7cec32a165389cc62cd95a24471f7fd6527f112d"),
         "a.com") ].
Proof.
  assert (H1 : ∃ q, "abc.cloudfunctions.net" = q +:+ ".cloudfunctions.net")
    by (exists "abc"; reflexivity).
  assert (H2 : ¬ ∃ q, "a.com" = q +:+ ".cloudfunctions.net").
  { intros H. apply endsWith_iff in H. vm_compute in H. discriminate H. }
  split; [exact H1|]. split.
  - pose proof (proj1 (proj1 (register_upserts world_ok "abc.cloudfunctions.net"
                                st_empty) H1)) as H.
    vm_compute in H. vm_compute. exact H.
  - split; [exact H2|].
    pose proof (proj1 (proj2 (register_upserts world_ok "a.com" st_empty) H2)) as H.
    vm_compute in H. vm_compute. exact H.
Defined.

(** C7, as the code has it: the entry [{domain, lastSeen}] of a host is
    written at [cacheDomains/<k>] where [k] is the hexadecimal SHA-256
    digest of the hostname as it was received; what line 109 lowers is the
    digest, not the hostname, so [A.com] and [a.com] have different
    keys. *)
Theorem registry_key (w : World) (host : string) (st : State) :
  (∀ h, h ∈ hosts w host →
        set_outcome w (hostRegistry, hostHash h) = Acknowledged) →
  hostHash host = Sha256.toString (Sha256.SHA256 host)
  ∧ (("cacheDomains", Sha256.toString (Sha256.SHA256 host)), host)
      ∈ writes (events (registerRequestHost w host st))
  ∧ (endsWith host ".cloudfunctions.net" = false
     ∨ hostHash host ≠ hostHash (getDefaultDomain w) →
     db (final (registerRequestHost w host st))
       !! ("cacheDomains", Sha256.toString (Sha256.SHA256 host))
     = Some (mkCachedDomain host (now st)))
  ∧ hostHash "A.com" ≠ hostHash "a.com".
Proof.
  intros Hack. split; [apply hostHash_digest|].
  rewrite <- hostHash_digest. change "cacheDomains" with hostRegistry.
  rewrite registerRequestHost_run. cbn [events final db].
  rewrite foldl_upsert_acknowledged by done. split; [|split].
  - rewrite writes_DbSet. apply list_elem_of_fmap. exists host.
    split; [done|]. unfold hosts. left.
  - unfold hosts. destruct (endsWith host ".cloudfunctions.net"); intros Hcase.
    + destruct Hcase as [?|Hne]; [done|]. cbn [app foldl].
      rewrite lookup_insert_ne by (intros [= ?]; by apply Hne).
      apply lookup_insert_eq.
    + cbn [app foldl]. apply lookup_insert_eq.
  - vm_compute. discriminate.
Qed.

Lemma registry_key_witness :
  (∀ h, h ∈ hosts world_ok "A.com" →
        set_outcome world_ok (hostRegistry, hostHash h) = Acknowledged)
  ∧ db (final (registerRequestHost world_ok "A.com" st_empty))
      !! ("cacheDomains", Sha256.toString (Sha256.SHA256 "A.com"))
    = Some (mkCachedDomain "A.com" 0).
Proof.
  assert (Hack : ∀ h, h ∈ hosts world_ok "A.com" →
                      set_outcome world_ok (hostRegistry, hostHash h) = Acknowledged)
    by reflexivity.
  split; [exact Hack|].
  apply (registry_key world_ok "A.com" st_empty Hack).
  left. vm_compute. reflexivity.
Defined.

(** C7 fails as stated: the key of [A.com] is the digest of [A.com], not
    the digest of the lowered hostname, and [A.com] and [a.com], which
    differ in letter case only, are written at different keys. *)
Lemma registry_key_case_sensitive :
  toLowerCase "A.com" = "a.com"
  ∧ writes (events (registerRequestHost world_ok "A.com" st_empty)) =
      [(("cacheDomains",
         "93b34d3347edf93876dd6567f59b901e7177adba281d299909fc991f1b35c7d8"),
        "A.com")]
  ∧ Sha256.toString (Sha256.SHA256 (toLowerCase "A.com")) =
      "d6c1754dbbf0bc91d7d6845c7cec32a165389cc62cd95a24471f7fd6527f112d"
  ∧ writes (events (registerRequestHost world_ok "a.com" st_empty)) =
      [(("cacheDomains",
         "d6c1754dbbf0bc91d7d6845c7cec32a165389cc62cd95a24471f7fd6527f112d"),
        "a.com")]
  ∧ hostHash "A.com" ≠ Sha256.toString (Sha256.SHA256 (toLowerCase "A.com"))
  ∧ hostHash "A.com" ≠ hostHash "a.com".
Proof.
  split; [reflexivity|].
  split; [vm_compute; reflexivity|].
  split; [vm_compute; reflexivity|].
  split; [vm_compute; reflexivity|].
  split; vm_compute; discriminate.
Qed.

(* ===================================================================== *)
(** * The content write *)
(* ===================================================================== *)

Lemma has_path_first_path (s : DocumentSnapshot) :
  paths_nonempty s →
  (has_path s = true ∧ ∃ p, path0 s = Some p ∧ first_path s = Some p)
  ∨ (has_path s = false ∧ first_path s = None).
Proof.
  intros Hne. unfold has_path, path0, first_path, paths_nonempty in *.
  destruct (data s) as [[[[|p l]|]]|]; cbn.
  - by destruct (Hne (mkDoc (Some []))).
  - left. eauto.
  - by right.
  - by right.
Qed.

Lemma snap_exists_has_path (s : DocumentSnapshot) :
  snap_exists s && has_path s = has_path s.
Proof. unfold snap_exists, has_path. by destruct (data s). Qed.

Lemma bind_ret_events {A B} (m : M A) (f : A → B) (st : State) :
  events (bind m (fun x => ret (f x)) st) = events (m st).
Proof.
  unfold bind, ret. destruct (settled (m st)); cbn; by rewrite ?app_nil_r.
Qed.

Lemma bind_ret_not_rejected {A B} (m : M A) (f : A → B) (st : State) :
  (∀ e, settled (m st) ≠ Rejected e) →
  ∀ e, settled (bind m (fun x => ret (f x)) st) ≠ Rejected e.
Proof.
  intros Hm e. unfold bind, ret. destruct (settled (m st)) eqn:E; cbn; try done.
  intros [= <-]. by apply (Hm e0).
Qed.

Lemma fanout_promises_not_rejected (w : World) (m : Method)
    (snap : list CachedDomain) (p : string) :
  unescaped p = false →
  all_rejected (fanout_promises w m snap (filenameVariants p)) = None.
Proof.
  intros Hesc. unfold fanout_promises.
  assert (Hall : ∀ hv, hv ∈ list_prod snap (filenameVariants p) →
                       unescaped (snd hv) = false).
  { intros [hd v] Hin. apply list_elem_of_In, in_prod_iff in Hin as [_ Hv].
    apply list_elem_of_In in Hv. cbn.
    by rewrite (filenameVariants_unescaped p v Hv). }
  induction (list_prod snap (filenameVariants p)) as [|hv l IH]; [done|].
  cbn. destruct (call_settles w m (domain hv.1) hv.2) eqn:E.
  - apply IH. intros hv' ?. apply Hall. by right.
  - apply call_settles_Rejected in E. rewrite Hall in E by left. done.
  - apply IH. intros hv' ?. apply Hall. by right.
Qed.

(** The fan-out of a path that Node accepts is never rejected. *)
Lemma broadcast_not_rejected (w : World) (m : Method) (p : string)
    (st : State) (e : JsError) :
  unescaped p = false →
  settled (broadcast w m (filenameVariants p) st) ≠ Rejected e.
Proof.
  intros Hesc. rewrite broadcast_run. cbn [settled]. unfold all_settle.
  rewrite fanout_promises_not_rejected by done. by destruct (all_values _).
Qed.

(** The fan-out of a path that Node refuses is rejected as soon as the
    registry has an entry. *)
Lemma broadcast_rejected (w : World) (m : Method) (p : string) (st : State) :
  unescaped p = true → registry st ≠ [] →
  settled (broadcast w m (filenameVariants p) st) =
  Rejected (TypeError "Request path contains unescaped characters").
Proof.
  intros Hesc Hreg. rewrite broadcast_run. cbn [settled].
  destruct (registry st) as [|hostData reg]; [done|].
  unfold all_settle, fanout_promises, filenameVariants.
  cbn [app list_prod map fmap list_fmap all_rejected fst snd].
  unfold call_settles at 1.
  by rewrite (https_outcome_unescaped w (mkOpts (domain hostData) 443 p m) Hesc).
Qed.

(** Conversely, a fan-out that is rejected has met a path that Node
    refuses, on a registry that is not empty. *)
Lemma broadcast_rejected_inv (w : World) (m : Method) (p : string) (st : State)
    (e : JsError) :
  settled (broadcast w m (filenameVariants p) st) = Rejected e →
  unescaped p = true ∧ registry st ≠ [].
Proof.
  intros Hrej. split.
  - destruct (unescaped p) eqn:E; [done|].
    by destruct (broadcast_not_rejected w m p st e E).
  - intros Hnil. rewrite broadcast_run, Hnil in Hrej. done.
Qed.

(** C5 (the code departs from it).  With an empty path list on the
    before-state the guard [!!path] passes, [path[0]] is [undefined], the
    purge of it raises a [TypeError] and the reaction is rejected before it
    heats anything: an error where the claim has none.  And when the
    connection of a purge request is refused, the reaction waits for that
    purge for ever and never heats the path of the after-state. *)
Theorem doc_write_empty_list_or_stalled :
  (settled (tanam_onDocWriteUpdateCache world_ok
      (mkChange (mkSnap (Some (mkDoc (Some []))))
                (mkSnap (Some (mkDoc (Some ["/blog/y.html"])))))
      st_one)
   = Rejected (TypeError "Cannot read property 'endsWith' of undefined")
   ∧ requests (events (tanam_onDocWriteUpdateCache world_ok
      (mkChange (mkSnap (Some (mkDoc (Some []))))
                (mkSnap (Some (mkDoc (Some ["/blog/y.html"])))))
      st_one))
     = [mkOpts "a.com" 443 "/sitemap.xml" PURGE])
  ∧ (settled (tanam_onDocWriteUpdateCache world_refused
      (mkChange (mkSnap (Some (mkDoc (Some ["/blog/x.html"]))))
                (mkSnap (Some (mkDoc (Some ["/blog/y.html"])))))
      st_one)
     = Pending
     ∧ requests (events (tanam_onDocWriteUpdateCache world_refused
      (mkChange (mkSnap (Some (mkDoc (Some ["/blog/x.html"]))))
                (mkSnap (Some (mkDoc (Some ["/blog/y.html"])))))
      st_one))
     = [mkOpts "a.com" 443 "/sitemap.xml" PURGE;
        mkOpts "a.com" 443 "/blog/x.html" PURGE]).
Proof. vm_compute. repeat split. Qed.

(* ===================================================================== *)
(** * The storage reactions *)
(* ===================================================================== *)

Lemma fanout_method (m : Method) (reg : list CachedDomain) (variants : list string) :
  Forall (fun o => method o = m) (fanout m reg variants).
Proof.
  unfold fanout. apply Forall_fmap, Forall_forall. by intros hv _.
Qed.

Lemma call_events_purge (w : World) (host path : string) (t : Z) :
  Forall (purge_then_heat t) (call_events w PURGE host path t).
Proof.
  unfold call_events. destruct (https_outcome w _); repeat constructor.
Qed.

Lemma call_events_heat (w : World) (host path : string) (t0 t : Z) :
  t0 + 10000 ≤ t → Forall (purge_then_heat t0) (call_events w GET host path t).
Proof.
  intros Ht. unfold call_events.
  destruct (https_outcome w _); repeat constructor; exact Ht.
Qed.

Lemma Forall_concat_fmap {A B} (P : B → Prop) (f : A → list B) (l : list A) :
  (∀ x, Forall P (f x)) → Forall P (concat (f <$> l)).
Proof.
  intros Hf. induction l as [|x l IH]; [constructor|].
  cbn. apply Forall_app. by split.
Qed.

Lemma fanout_events_purge (w : World) (reg : list CachedDomain)
    (variants : list string) (t : Z) :
  Forall (purge_then_heat t) (fanout_events w PURGE reg variants t).
Proof.
  unfold fanout_events. apply Forall_concat_fmap. intros hostData.
  apply Forall_concat_fmap. intros v. apply call_events_purge.
Qed.

Lemma fanout_events_heat (w : World) (reg : list CachedDomain)
    (variants : list string) (t0 t : Z) :
  t0 + 10000 ≤ t →
  Forall (purge_then_heat t0) (fanout_events w GET reg variants t).
Proof.
  intros Ht. unfold fanout_events. apply Forall_concat_fmap. intros hostData.
  apply Forall_concat_fmap. intros v. by apply call_events_heat.
Qed.

Lemma call_settles_Fulfilled (w : World) (m : Method) (host path : string) :
  call_settles w m host path = Fulfilled tt ↔
  ∃ statusCode statusMessage,
    https_outcome w (mkOpts host 443 path m) = Response statusCode statusMessage.
Proof.
  unfold call_settles. destruct (https_outcome w _) as [c s|c|c]; split; eauto.
  - done.
  - by intros (? & ? & ?).
  - done.
  - by intros (? & ? & ?).
Qed.

Lemma broadcast_fulfilled_iff (w : World) (m : Method) (variants : list string)
    (st : State) :
  (∃ vs, settled (broadcast w m variants st) = Fulfilled vs) ↔
  (∀ hostData v, hostData ∈ registry st → v ∈ variants →
     ∃ statusCode statusMessage,
       https_outcome w (mkOpts (domain hostData) 443 v m)
       = Response statusCode statusMessage).
Proof.
  rewrite broadcast_run. cbn [settled]. split.
  - intros [vs Hvs] hostData v Hh Hv. apply all_settle_Fulfilled_inv in Hvs.
    apply call_settles_Fulfilled.
    assert (Hin : call_settles w m (domain hostData) v
                  ∈ fanout_promises w m (registry st) variants).
    { unfold fanout_promises. apply list_elem_of_fmap. exists (hostData, v).
      split; [done|]. apply list_elem_of_In, in_prod; by apply list_elem_of_In. }
    rewrite Hvs in Hin. apply list_elem_of_fmap in Hin as ([] & -> & _). done.
  - intros Hall. exists ((fun _ => tt) <$> list_prod (registry st) variants).
    rewrite <- all_settle_fulfilled. f_equal.
    unfold fanout_promises. rewrite <- list_fmap_compose.
    apply Forall_fmap_ext_1, Forall_forall. intros [hostData v] Hin. cbn.
    apply list_elem_of_In, in_prod_iff in Hin as [Hh Hv].
    apply call_settles_Fulfilled, Hall; by apply list_elem_of_In.
Qed.

Lemma https_outcome_Response (w : World) (o : RequestOptions)
    (statusCode : Z) (statusMessage : string) :
  https_outcome w o = Response statusCode statusMessage → unescaped (path o) = false.
Proof.
  intros H. destruct (unescaped (path o)) eqn:E; [|done].
  by rewrite (https_outcome_unescaped w o E) in H.
Qed.

(** A fan-out that is answered has no path that Node refuses, unless it
    has no request at all. *)
Lemma fanout_answered_escaped (w : World) (m : Method) (st : State) (p : string) :
  fanout_answered w m st p → registry st = [] ∨ unescaped p = false.
Proof.
  intros Hans. destruct (registry st) as [|hostData reg] eqn:E; [by left|].
  right. destruct (Hans hostData p) as (c & msg & H).
  - rewrite E. left.
  - unfold filenameVariants. left.
  - by apply https_outcome_Response in H.
Qed.

Lemma world_ok_answers (m : Method) (host v : string) :
  unescaped v = false →
  https_outcome world_ok (mkOpts host 443 v m) = Response 200 "OK".
Proof. intros H. unfold https_outcome. cbn [path]. by rewrite H. Qed.

Lemma world_ok_fanout_answered (m : Method) (st : State) (p : string) :
  unescaped p = false → fanout_answered world_ok m st p.
Proof.
  intros Hesc hostData v _ Hv. exists 200, "OK". apply world_ok_answers.
  by rewrite (filenameVariants_unescaped p v Hv).
Qed.

(** X1: the reaction to a deleted storage object calls [https.get] once
    per registry entry and variant of the object's public path, with
    [PURGE] and never with [GET]; it is rejected exactly when the public
    path holds a character that Node refuses in a request path (a space,
    say) and the registry is not empty. *)
Theorem file_delete_purges_only (w : World) (object : StorageFile) (st : State) :
  requests (events (tanam_onFileDeleteUpdateCache w object st)) =
    fanout PURGE (registry st)
      (filenameVariants (getPublicPathToStorageFile w (name object)))
  ∧ Forall (fun o => method o = PURGE)
      (requests (events (tanam_onFileDeleteUpdateCache w object st)))
  ∧ ((∃ e, settled (tanam_onFileDeleteUpdateCache w object st) = Rejected e) ↔
     unescaped (getPublicPathToStorageFile w (name object)) = true
     ∧ registry st ≠ []).
Proof.
  unfold tanam_onFileDeleteUpdateCache. cbv zeta.
  rewrite purgeCache_requests. split; [done|]. split.
  - apply fanout_method.
  - rewrite purgeCache_run. split.
    + intros [e He]. by apply broadcast_rejected_inv in He.
    + intros [Hesc Hreg]. eexists. by apply broadcast_rejected.
Qed.

(** X2: when every request of the purge fan-out is answered, the
    reaction to a finalized storage object sends the [PURGE] fan-out of
    the object's public path at once and then calls for the [GET] fan-out
    of the same path, no [GET] earlier than 10000 ms after the start; it is
    not rejected. *)
Theorem file_change_purges_then_heats (w : World) (object : StorageFile) (st : State) :
  fanout_answered w PURGE st (getPublicPathToStorageFile w (name object)) →
  requests (events (tanam_onFileChangeUpdateCache w object st)) =
    fanout PURGE (registry st)
      (filenameVariants (getPublicPathToStorageFile w (name object)))
    ++ fanout GET (registry st)
         (filenameVariants (getPublicPathToStorageFile w (name object)))
  ∧ Forall (purge_then_heat (now st))
      (events (tanam_onFileChangeUpdateCache w object st))
  ∧ (∀ e, settled (tanam_onFileChangeUpdateCache w object st) ≠ Rejected e).
Proof.
  intros Hans. unfold tanam_onFileChangeUpdateCache. cbv zeta.
  set (p := getPublicPathToStorageFile w (name object)) in *.
  destruct (proj2 (broadcast_fulfilled_iff w PURGE (filenameVariants p) st) Hans)
    as [vs Hvs].
  rewrite broadcast_run in Hvs. cbn [settled] in Hvs.
  erewrite bind_fulfilled;
    [|rewrite purgeCache_run, broadcast_run, Hvs; reflexivity].
  rewrite heatCache_run, broadcast_run. cbn [settled final events].
  split; [|split].
  - by rewrite requests_app, !requests_fanout_events.
  - apply Forall_app. split; [apply fanout_events_purge|].
    apply fanout_events_heat. cbn [now default].
    change (timer_delay 10000) with 10000. lia.
  - intros e. cbn [registry db].
    change (registry {| now := now st + timer_delay (default 10000 None)
                               + Z.of_N (timer_lag w); db := db st |})
      with (registry st).
    destruct (fanout_answered_escaped w PURGE st p Hans) as [Hnil|Hesc].
    + by rewrite Hnil.
    + unfold all_settle. rewrite fanout_promises_not_rejected by done.
      by destruct (all_values _).
Qed.

Lemma file_change_purges_then_heats_witness :
  fanout_answered world_ok PURGE st_two
    (getPublicPathToStorageFile world_ok (name (mkFile "about/index.html")))
  ∧ requests (events (tanam_onFileChangeUpdateCache world_ok
                        (mkFile "about/index.html") st_two)) =
      fanout PURGE (registry st_two) ["/about/index.html"; "/about"; "/about/"]
      ++ fanout GET (registry st_two) ["/about/index.html"; "/about"; "/about/"].
Proof.
  assert (H : fanout_answered world_ok PURGE st_two
                (getPublicPathToStorageFile world_ok (name (mkFile "about/index.html"))))
    by (apply world_ok_fanout_answered; reflexivity).
  split; [exact H|].
  exact (proj1 (file_change_purges_then_heats world_ok
                  (mkFile "about/index.html") st_two H)).
Defined.

(** X3: when one purge request of the reaction to a finalized storage
    object is never answered, the reaction never completes and never
    sends a [GET]: the object is purged and not warmed. *)
Theorem file_change_stalled (w : World) (object : StorageFile) (st : State)
    (hostData : CachedDomain) (v code : string) :
  hostData ∈ registry st →
  v ∈ filenameVariants (getPublicPathToStorageFile w (name object)) →
  https_outcome w (mkOpts (domain hostData) 443 v PURGE) = RequestError code →
  settled (tanam_onFileChangeUpdateCache w object st) = Pending
  ∧ requests (events (tanam_onFileChangeUpdateCache w object st)) =
      fanout PURGE (registry st)
        (filenameVariants (getPublicPathToStorageFile w (name object))).
Proof.
  intros Hh Hv Herr. unfold tanam_onFileChangeUpdateCache. cbv zeta.
  pose proof (broadcast_pending w PURGE _ st hostData v code Hh Hv Herr) as Hp.
  rewrite <- purgeCache_run in Hp.
  unfold bind. rewrite Hp. cbn [settled events].
  split; [done | apply purgeCache_requests].
Qed.

Lemma file_change_stalled_witness :
  mkCachedDomain "a.com" 0 ∈ registry st_one
  ∧ "/logo.png" ∈ filenameVariants
                    (getPublicPathToStorageFile world_refused "logo.png")
  ∧ https_outcome world_refused (mkOpts "a.com" 443 "/logo.png" PURGE)
    = RequestError "ECONNREFUSED"
  ∧ settled (tanam_onFileChangeUpdateCache world_refused (mkFile "logo.png") st_one)
    = Pending
  ∧ requests (events (tanam_onFileChangeUpdateCache world_refused
                        (mkFile "logo.png") st_one)) =
      fanout PURGE (registry st_one)
        (filenameVariants (getPublicPathToStorageFile world_refused "logo.png")).
Proof.
  assert (H1 : mkCachedDomain "a.com" 0 ∈ registry st_one).
  { assert (registry st_one = [mkCachedDomain "a.com" 0]) as ->
      by (vm_compute; reflexivity).
    apply list_elem_of_singleton. reflexivity. }
  assert (H2 : "/logo.png" ∈ filenameVariants
                 (getPublicPathToStorageFile world_refused "logo.png"))
    by (apply list_elem_of_singleton; reflexivity).
  split; [exact H1|]. split; [exact H2|]. split; [reflexivity|].
  exact (file_change_stalled world_refused (mkFile "logo.png") st_one
           (mkCachedDomain "a.com" 0) "/logo.png" "ECONNREFUSED" H1 H2 eq_refl).
Defined.

(* ===================================================================== *)
(** * The theme change, in general *)
(* ===================================================================== *)

Lemma count_occ_bind_const {A} (l : list A) (k : list RequestOptions)
    (o : RequestOptions) :
  count_occ RequestOptions_eq_dec (l ≫= (fun _ => k)) o =
  (length l * count_occ RequestOptions_eq_dec k o)%nat.
Proof.
  induction l as [|x l IH]; [done|].
  cbn [mbind list_bind length]. rewrite count_occ_app.
  change (count_occ RequestOptions_eq_dec (l ≫= (fun _ : A => k)) o =
          (length l * count_occ RequestOptions_eq_dec k o)%nat) in IH.
  rewrite IH. lia.
Qed.

Lemma Forall_bind {A B} (P : B → Prop) (f : A → list B) (l : list A) :
  (∀ x, Forall P (f x)) → Forall P (l ≫= f).
Proof.
  intros Hf. induction l as [|x l IH]; [constructor|].
  cbn [mbind list_bind]. apply Forall_app. by split.
Qed.

(** X4: when every document has a first path, a theme change sends
    nothing but [PURGE] requests, and it sends the requests of one round
    (every theme file and every document's first path, on every registered
    domain) once per site domain: every request occurs [|getDomains|] times
    as often as in one round. *)
Theorem theme_change_rounds (w : World) (previousTheme : string)
    (newTheme : option string) (st : State) :
  Forall (fun document => is_Some (first_path (mkSnap (Some document))))
         (getAllDocuments w) →
  (∀ o, count_occ RequestOptions_eq_dec
          (requests (events (tanam_onThemeChangeUpdateCache w
                               (mkChange (Some previousTheme) newTheme) st))) o =
        (length (getDomains w)
         * count_occ RequestOptions_eq_dec
             (theme_round w previousTheme (registry st)) o)%nat)
  ∧ length (requests (events (tanam_onThemeChangeUpdateCache w
                                (mkChange (Some previousTheme) newTheme) st))) =
    (length (getDomains w) * length (theme_round w previousTheme (registry st)))%nat
  ∧ Forall (fun o => method o = PURGE)
      (requests (events (tanam_onThemeChangeUpdateCache w
                           (mkChange (Some previousTheme) newTheme) st))).
Proof.
  intros Hdocs. rewrite theme_change_requests by done.
  split; [|split].
  - intros o. apply count_occ_bind_const.
  - apply length_bind_const.
  - apply Forall_bind. intros _. unfold theme_round.
    apply Forall_bind. intros p. apply fanout_method.
Qed.

Lemma theme_change_rounds_witness :
  Forall (fun document => is_Some (first_path (mkSnap (Some document))))
         (getAllDocuments world_ok)
  ∧ length (requests (events (tanam_onThemeChangeUpdateCache world_ok
                                (mkChange (Some "classic") (Some "modern")) st_two))) =
    (length (getDomains world_ok)
     * length (theme_round world_ok "classic" (registry st_two)))%nat.
Proof.
  assert (H : Forall (fun document => is_Some (first_path (mkSnap (Some document))))
                     (getAllDocuments world_ok))
    by (repeat constructor; eexists; reflexivity).
  split; [exact H|].
  exact (proj1 (proj2 (theme_change_rounds world_ok "classic" (Some "modern")
                         st_two H))).
Defined.

(** A loop stops at the first body that throws; what the bodies before
    it caused stays. *)
Lemma forM_stable_reject {A B} (xs : list A) (y : A) (ys : list A)
    (body : A → M B) (st : State) (val : A → B) (ev : A → list Event)
    (e : JsError) (es : list Event) :
  (∀ x, x ∈ xs → body x st = mkResult (Fulfilled (val x)) st (ev x)) →
  body y st = mkResult (Rejected e) st es →
  forM (xs ++ y :: ys) body st =
  mkResult (Rejected e) st (concat (ev <$> xs) ++ es).
Proof.
  intros Hxs Hy. induction xs as [|x xs IH].
  - cbn [app forM fmap list_fmap concat]. by erewrite bind_rejected.
  - cbn [app forM]. erewrite bind_fulfilled; [|apply Hxs; left].
    erewrite (bind_rejected (forM (xs ++ y :: ys) body));
      [|apply IH; intros z Hz; apply Hxs; by right].
    cbn. by rewrite app_assoc.
Qed.

(** X5: when a document has no [path], a theme change raises a
    [TypeError] at that document in the first round and is rejected; the
    purges of the theme files and of the documents before it have been
    sent by then, and nothing else is. *)
Theorem theme_change_missing_path (w : World) (previousTheme : string)
    (newTheme : option string) (st : State)
    (d : string) (ds : list string)
    (pre : list DocumentData) (bad : DocumentData) (post : list DocumentData) :
  getDomains w = d :: ds →
  getAllDocuments w = pre ++ bad :: post →
  Forall (fun document => is_Some (first_path (mkSnap (Some document)))) pre →
  doc_path bad = None →
  settled (tanam_onThemeChangeUpdateCache w
             (mkChange (Some previousTheme) newTheme) st) =
    Rejected (TypeError "Cannot read property '0' of undefined")
  ∧ requests (events (tanam_onThemeChangeUpdateCache w
                        (mkChange (Some previousTheme) newTheme) st)) =
    (((fun themeFile => getPublicPathToStorageFile w (name themeFile))
        <$> getThemeFiles w previousTheme)
     ++ omap (fun document => first_path (mkSnap (Some document))) pre)
    ≫= (fun p => fanout PURGE (registry st) (filenameVariants p)).
Proof.
  intros Hdom Hall Hpre Hbad. unfold tanam_onThemeChangeUpdateCache. cbn [before].
  do 3 (erewrite bind_fulfilled; [|reflexivity]).
  cbn [settled final events app]. rewrite Hdom, Hall.
  set (handle := fun p => mkHandle
         (all_settle (fanout_promises w PURGE (registry st) (filenameVariants p)))
         (now st)).
  set (evs := fun p => fanout_events w PURGE (registry st) (filenameVariants p) (now st)).
  set (public := fun themeFile => getPublicPathToStorageFile w (name themeFile)).
  set (first := fun document => default "" (first_path (mkSnap (Some document)))).
  erewrite (bind_rejected (forM (d :: ds) _)).
  2:{ apply (forM_stable_reject [] d ds _ st (fun _ => []) (fun _ => [])).
      { intros x Hx. by apply elem_of_nil in Hx. }
      erewrite bind_fulfilled.
      2:{ apply (forM_stable _ _ st (handle ∘ public) (evs ∘ public)).
          intros themeFile _. apply spawn_purgeCache_run. }
      erewrite (bind_rejected (forM (pre ++ bad :: post) _)).
      2:{ apply (forM_stable_reject pre bad post _ st (handle ∘ first) (evs ∘ first)).
          - intros document Hin.
            pose proof (proj1 (Forall_forall _ _) Hpre document Hin) as [p Hp].
            rewrite (purge_document_run w document p st Hp).
            unfold first, compose. by rewrite Hp.
          - unfold document_path0. rewrite Hbad.
            by erewrite bind_rejected. }
      reflexivity. }
  cbn [settled events]. split; [done|].
  cbn [fmap list_fmap concat app]. rewrite !app_nil_r.
  rewrite requests_app, !list_fmap_compose, !requests_concat_fmap.
  rewrite bind_app. f_equal.
  - induction (public <$> getThemeFiles w previousTheme) as [|p ps IH]; [done|].
    cbn [mbind list_bind]. rewrite IH. f_equal. apply requests_fanout_events.
  - rewrite (omap_all_Some _ _ "" Hpre). subst first.
    induction (_ <$> pre) as [|p ps IH]; [done|].
    cbn [mbind list_bind]. rewrite IH. f_equal. apply requests_fanout_events.
Qed.

Lemma theme_change_missing_path_witness :
  getDomains world_missing_path = "a.com" :: ["b.com"]
  ∧ getAllDocuments world_missing_path =
      [mkDoc (Some ["/p1"])] ++ mkDoc None :: [mkDoc (Some ["/p2"])]
  ∧ Forall (fun document => is_Some (first_path (mkSnap (Some document))))
      [mkDoc (Some ["/p1"])]
  ∧ doc_path (mkDoc None) = None
  ∧ settled (tanam_onThemeChangeUpdateCache world_missing_path
               (mkChange (Some "classic") (Some "modern")) st_two) =
      Rejected (TypeError "Cannot read property '0' of undefined")
  ∧ requests (events (tanam_onThemeChangeUpdateCache world_missing_path
                        (mkChange (Some "classic") (Some "modern")) st_two)) =
      ["/themes/classic/t1.css"; "/p1"]
      ≫= (fun p => fanout PURGE (registry st_two) (filenameVariants p)).
Proof.
  assert (H : Forall (fun document => is_Some (first_path (mkSnap (Some document))))
                     [mkDoc (Some ["/p1"])])
    by (repeat constructor; eexists; reflexivity).
  split; [reflexivity|]. split; [reflexivity|]. split; [exact H|].
  split; [reflexivity|].
  exact (theme_change_missing_path world_missing_path "classic" (Some "modern")
           st_two "a.com" ["b.com"] [mkDoc (Some ["/p1"])] (mkDoc None)
           [mkDoc (Some ["/p2"])] eq_refl eq_refl H eq_refl).
Defined.

(* ===================================================================== *)
(** * The registry as a store *)
(* ===================================================================== *)

Lemma elem_of_registry (st : State) (e : CachedDomain) :
  e ∈ registry st ↔ ∃ k, db st !! (hostRegistry, k) = Some e.
Proof.
  unfold registry. rewrite list_elem_of_fmap. split.
  - intros ([[r k] e'] & -> & Hin). apply list_elem_of_filter in Hin as [Hr Hin].
    cbn in Hr. subst r. exists k. by apply elem_of_map_to_list.
  - intros [k Hk]. exists ((hostRegistry, k), e). split; [done|].
    apply list_elem_of_filter. split; [done|]. by apply elem_of_map_to_list.
Qed.

Lemma upsert_keyed (w : World) (t : Z) (d : Database) (h : string) :
  keyed_by_hash d → keyed_by_hash (upsert w t d h).
Proof.
  intros Hd. unfold upsert. destruct (set_outcome w _); [|done].
  intros k e. rewrite lookup_insert. case_decide as Heq.
  - intros [= <-]. by injection Heq as <-.
  - apply Hd.
Qed.

Lemma foldl_upsert_keyed (w : World) (t : Z) (hs : list string) (d : Database) :
  keyed_by_hash d → keyed_by_hash (foldl (upsert w t) d hs).
Proof.
  revert d. induction hs as [|h hs IH]; intros d Hd; [done|].
  cbn [foldl]. by apply IH, upsert_keyed.
Qed.

Lemma registerRequestHost_keyed (w : World) (host : string) (st : State) :
  keyed_by_hash (db st) →
  keyed_by_hash (db (final (registerRequestHost w host st))).
Proof.
  intros Hst. rewrite registerRequestHost_run. cbn [final db].
  by apply foldl_upsert_keyed.
Qed.

Lemma keyed_by_hash_empty : keyed_by_hash (db st_empty).
Proof. intros k e Hk. change (db st_empty) with (∅ : Database) in Hk. done. Qed.

Lemma keyed_by_hash_st_two : keyed_by_hash (db st_two).
Proof.
  unfold st_two, st_one.
  do 2 apply registerRequestHost_keyed. apply keyed_by_hash_empty.
Qed.

(** X6: registration keeps every entry of the registry under the hash
    of the entry's own domain, whether its writes are acknowledged or
    not. *)
Theorem register_keeps_keys_hashed (w : World) (host : string) (st : State) :
  keyed_by_hash (db st) →
  keyed_by_hash (db (final (registerRequestHost w host st))).
Proof.
  intros Hst. rewrite registerRequestHost_run. cbn [final db].
  revert Hst. generalize (db st). induction (hosts w host) as [|h hs IH];
    intros d Hd; [done|].
  cbn [foldl]. by apply IH, upsert_keyed.
Qed.

Lemma register_keeps_keys_hashed_witness :
  keyed_by_hash (db st_two)
  ∧ keyed_by_hash (db (final (registerRequestHost world_ok
                                "abc.cloudfunctions.net" st_two))).
Proof.
  split; [exact keyed_by_hash_st_two|].
  exact (register_keeps_keys_hashed world_ok "abc.cloudfunctions.net" st_two
           keyed_by_hash_st_two).
Defined.

(** Under that invariant no two entries of the registry name the same
    domain. *)
Lemma registry_domains_NoDup (st : State) :
  keyed_by_hash (db st) → NoDup (domain <$> registry st).
Proof.
  intros Hkeyed. unfold registry. rewrite <- list_fmap_compose.
  apply NoDup_fmap_2_strong.
  - intros [[r1 k1] e1] [[r2 k2] e2] H1 H2 Hdom. cbn in Hdom.
    apply list_elem_of_filter in H1 as [Hr1 H1].
    apply list_elem_of_filter in H2 as [Hr2 H2].
    cbn in Hr1, Hr2. subst r1 r2.
    apply elem_of_map_to_list in H1. apply elem_of_map_to_list in H2.
    pose proof (Hkeyed _ _ H1) as Hk1. pose proof (Hkeyed _ _ H2) as Hk2.
    rewrite Hdom in Hk1. rewrite <- Hk2 in Hk1. subst k2.
    rewrite H1 in H2. by injection H2 as <-.
  - apply NoDup_filter, NoDup_map_to_list.
Qed.

Lemma fanout_cons (m : Method) (hostData : CachedDomain) (reg : list CachedDomain)
    (variants : list string) :
  fanout m (hostData :: reg) variants =
  ((fun v => mkOpts (domain hostData) 443 v m) <$> variants) ++ fanout m reg variants.
Proof.
  unfold fanout. cbn [list_prod]. rewrite fmap_app. f_equal.
  induction variants as [|v variants IH]; [done|]. cbn. by rewrite <- IH.
Qed.

Lemma elem_of_fanout (m : Method) (reg : list CachedDomain) (variants : list string)
    (o : RequestOptions) :
  o ∈ fanout m reg variants ↔
  ∃ hostData v, hostData ∈ reg ∧ v ∈ variants ∧ o = mkOpts (domain hostData) 443 v m.
Proof.
  unfold fanout. rewrite list_elem_of_fmap. split.
  - intros ([hostData v] & -> & Hin).
    apply list_elem_of_In, in_prod_iff in Hin as [Hh Hv].
    exists hostData, v. by rewrite !list_elem_of_In.
  - intros (hostData & v & Hh & Hv & ->). exists (hostData, v). split; [done|].
    apply list_elem_of_In, in_prod_iff. by rewrite <- !list_elem_of_In.
Qed.

Lemma fanout_NoDup (m : Method) (reg : list CachedDomain) (variants : list string) :
  NoDup (domain <$> reg) → NoDup variants → NoDup (fanout m reg variants).
Proof.
  intros Hreg Hv. induction reg as [|hostData reg IH]; [constructor|].
  rewrite fmap_cons in Hreg. apply NoDup_cons in Hreg as [Hnotin Hreg].
  rewrite fanout_cons. apply NoDup_app. split; [|split].
  - apply NoDup_fmap_2_strong; [|done]. by intros v1 v2 _ _ [= ->].
  - intros o Ho1 Ho2. apply list_elem_of_fmap in Ho1 as (v & -> & _).
    apply elem_of_fanout in Ho2 as (hostData' & v' & Hh' & _ & [= Hd _]).
    apply Hnotin. rewrite Hd. apply list_elem_of_fmap. eauto.
  - by apply IH.
Qed.

Lemma filenameVariants_NoDup (p : string) : NoDup (filenameVariants p).
Proof.
  destruct (endsWith p "/index.html") eqn:E.
  - apply endsWith_inv in E as [q ->]. rewrite filenameVariants_index.
    apply variants_index_NoDup.
  - rewrite filenameVariants_other by done. apply NoDup_singleton.
Qed.

Lemma fanout_on_the_wire (m : Method) (reg : list CachedDomain)
    (variants : list string) :
  on_the_wire <$> fanout m reg variants =
  fanout m reg ((fun v => if String.eqb v "" then "/" else v) <$> variants).
Proof.
  induction reg as [|hostData reg IH]; [done|].
  rewrite !fanout_cons, fmap_app, IH. f_equal.
  by rewrite <- !list_fmap_compose.
Qed.

Lemma string_app_nonempty (q s : string) : s ≠ "" → q +:+ s ≠ "".
Proof.
  intros Hs H. apply (f_equal String.length) in H.
  rewrite string_length_app in H. destruct s; [done|]. cbn in H. lia.
Qed.

(** What Node sends for the variants of a path are different paths,
    unless the path is [/index.html]. *)
Lemma variants_on_the_wire_NoDup (p : string) :
  p ≠ "/index.html" →
  NoDup ((fun v => if String.eqb v "" then "/" else v) <$> filenameVariants p).
Proof.
  intros Hp. destruct (endsWith p "/index.html") eqn:E.
  - apply endsWith_inv in E as [q ->]. rewrite filenameVariants_index.
    destruct q as [|c q]; [done|].
    cbn [fmap list_fmap].
    assert (String.eqb (String c q +:+ "/index.html") "" = false) as ->
      by (by apply String.eqb_neq, string_app_nonempty).
    assert (String.eqb (String c q) "" = false) as -> by done.
    assert (String.eqb (String c q +:+ "/") "" = false) as ->
      by (by apply String.eqb_neq, string_app_nonempty).
    apply variants_index_NoDup.
  - rewrite filenameVariants_other by done. apply NoDup_singleton.
Qed.

(** X7: compared by what Node sends for them (an empty path goes out as
    [/]), the requests of [purgeCache] and of [heatCache] on a registry
    keyed by the hashes of its domains are all different for every path
    but [/index.html]; for [/index.html] the variants [""] and ["/"] are
    the same request, so every registered host is asked for [/] twice. *)
Theorem fanout_sends_no_duplicates (w : World) (p : string) (delay : option Z)
    (st : State) :
  keyed_by_hash (db st) →
  (p ≠ "/index.html" →
   NoDup (on_the_wire <$> requests (events (purgeCache w (Some p) st)))
   ∧ NoDup (on_the_wire <$> requests (events (heatCache w (Some p) delay st))))
  ∧ (∀ hostData, hostData ∈ registry st →
       count_occ RequestOptions_eq_dec
         (on_the_wire <$> requests (events (purgeCache w (Some "/index.html") st)))
         (mkOpts (domain hostData) 443 "/" PURGE) = 2%nat
       ∧ count_occ RequestOptions_eq_dec
           (on_the_wire
              <$> requests (events (heatCache w (Some "/index.html") delay st)))
           (mkOpts (domain hostData) 443 "/" GET) = 2%nat).
Proof.
  intros Hkeyed. rewrite !purgeCache_requests, !heatCache_requests.
  rewrite !fanout_on_the_wire.
  pose proof (registry_domains_NoDup st Hkeyed) as Hnd.
  split.
  - intros Hp. split; apply fanout_NoDup;
      auto using variants_on_the_wire_NoDup.
  - change (filenameVariants "/index.html") with ["/index.html"; ""; "/"].
    cbn [fmap list_fmap String.eqb].
    assert (Hcount : ∀ m reg hostData,
              NoDup (domain <$> reg) → hostData ∈ reg →
              count_occ RequestOptions_eq_dec
                (fanout m reg ["/index.html"; "/"; "/"])
                (mkOpts (domain hostData) 443 "/" m) = 2%nat).
    { intros m reg. induction reg as [|e reg IH]; intros hostData Hreg Hin.
      - by apply elem_of_nil in Hin.
      - rewrite fmap_cons in Hreg. apply NoDup_cons in Hreg as [Hnotin Hreg].
        rewrite fanout_cons, count_occ_app. cbn [fmap list_fmap].
        apply elem_of_cons in Hin as [->|Hin].
        + rewrite (proj1 (count_occ_not_In RequestOptions_eq_dec
                            (fanout m reg ["/index.html"; "/"; "/"])
                            (mkOpts (domain e) 443 "/" m))).
          * cbn [count_occ]. repeat case_match; try done; congruence.
          * intros Hin. apply list_elem_of_In, elem_of_fanout in Hin
              as (e' & v' & He' & _ & [= Hd _]).
            apply Hnotin. rewrite Hd. apply list_elem_of_fmap. eauto.
        + rewrite (IH hostData Hreg Hin).
          assert (domain e ≠ domain hostData).
          { intros Heq. apply Hnotin. rewrite Heq.
            apply list_elem_of_fmap. eauto. }
          cbn [count_occ]. repeat case_match; try done; congruence. }
    intros hostData Hin. split; by apply Hcount.
Qed.

Lemma fanout_sends_no_duplicates_witness :
  keyed_by_hash (db st_two)
  ∧ NoDup (on_the_wire
             <$> requests (events (purgeCache world_ok (Some "/about/index.html")
                                     st_two)))
  ∧ count_occ RequestOptions_eq_dec
      (on_the_wire <$> requests (events (purgeCache world_ok (Some "/index.html")
                                           st_two)))
      (mkOpts "a.com" 443 "/" PURGE) = 2%nat.
Proof.
  split; [exact keyed_by_hash_st_two|].
  pose proof (fanout_sends_no_duplicates world_ok "/about/index.html" None st_two
                keyed_by_hash_st_two) as [Hnd Hcount].
  split.
  - apply Hnd. discriminate.
  - apply (Hcount (mkCachedDomain "a.com" 0)).
    assert (registry st_two = [mkCachedDomain "b.com" 0; mkCachedDomain "a.com" 0])
      as -> by (vm_compute; reflexivity).
    rewrite !elem_of_cons. auto.
Defined.

Lemma upsert_other (w : World) (t : Z) (d : Database) (h : string)
    (ref : string * string) :
  ref ≠ (hostRegistry, hostHash h) → upsert w t d h !! ref = d !! ref.
Proof.
  intros Hne. unfold upsert. destruct (set_outcome w _); [|done].
  by rewrite lookup_insert_ne.
Qed.

Lemma upsert_is_Some (w : World) (t : Z) (d : Database) (h : string)
    (ref : string * string) :
  is_Some (d !! ref) → is_Some (upsert w t d h !! ref).
Proof.
  intros Hs. unfold upsert. destruct (set_outcome w _); [|done].
  rewrite lookup_insert. by case_decide.
Qed.

Lemma foldl_upsert_other (w : World) (t : Z) (hs : list string) (d : Database)
    (ref : string * string) :
  (∀ h, h ∈ hs → ref ≠ (hostRegistry, hostHash h)) →
  foldl (upsert w t) d hs !! ref = d !! ref.
Proof.
  revert d. induction hs as [|h hs IH]; intros d Hne; [done|].
  cbn [foldl]. rewrite IH by (intros h' ?; apply Hne; by right).
  apply upsert_other, Hne. left.
Qed.

Lemma foldl_upsert_is_Some (w : World) (t : Z) (hs : list string) (d : Database)
    (ref : string * string) :
  is_Some (d !! ref) → is_Some (foldl (upsert w t) d hs !! ref).
Proof.
  revert d. induction hs as [|h hs IH]; intros d Hs; [done|].
  cbn [foldl]. by apply IH, upsert_is_Some.
Qed.

(** X8: registration never removes an entry of the store, and it leaves
    every entry as it was except those under the keys of the hosts it
    writes, whether the writes are acknowledged or not. *)
Theorem register_keeps_other_entries (w : World) (host : string) (st : State)
    (ref : string * string) :
  (is_Some (db st !! ref) →
   is_Some (db (final (registerRequestHost w host st)) !! ref))
  ∧ ((∀ h, h ∈ hosts w host → ref ≠ (hostRegistry, hostHash h)) →
     db (final (registerRequestHost w host st)) !! ref = db st !! ref).
Proof.
  rewrite registerRequestHost_run. cbn [final db]. split.
  - apply foldl_upsert_is_Some.
  - apply foldl_upsert_other.
Qed.

Lemma register_keeps_other_entries_witness :
  is_Some (db st_one !! (hostRegistry, hostHash "a.com"))
  ∧ is_Some (db (final (registerRequestHost world_ok "b.com" st_one))
               !! (hostRegistry, hostHash "a.com"))
  ∧ db (final (registerRequestHost world_ok "b.com" st_one))
      !! (hostRegistry, hostHash "a.com")
    = db st_one !! (hostRegistry, hostHash "a.com").
Proof.
  assert (H1 : is_Some (db st_one !! (hostRegistry, hostHash "a.com")))
    by (eexists; vm_compute; reflexivity).
  assert (H2 : ∀ h, h ∈ hosts world_ok "b.com" →
                    (hostRegistry, hostHash "a.com") ≠ (hostRegistry, hostHash h)).
  { intros h Hh. apply list_elem_of_singleton in Hh as ->.
    vm_compute. discriminate. }
  split; [exact H1|].
  pose proof (register_keeps_other_entries world_ok "b.com" st_one
                (hostRegistry, hostHash "a.com")) as [Hs Ho].
  split; [exact (Hs H1) | exact (Ho H2)].
Defined.

(** Where the writes are acknowledged, an entry of the store is the one
    of the last host written at its key, or what it was. *)
Lemma lookup_foldl_insert (t : Z) (hs : list string) (d : Database)
    (ref : string * string) :
  foldl (fun d h => <[(hostRegistry, hostHash h) := mkCachedDomain h t]> d) d hs
    !! ref =
  match last_writer hs ref with
  | Some h => Some (mkCachedDomain h t)
  | None => d !! ref
  end.
Proof.
  revert d. induction hs as [|h hs IH]; intros d; [done|].
  cbn [foldl last_writer]. rewrite IH.
  destruct (last_writer hs ref); [done|].
  rewrite lookup_insert. case_decide as H1; case_decide as H2; try done.
  all: by subst.
Qed.

Lemma last_writer_last (hs : list string) (h : string) :
  last_writer (hs ++ [h]) (hostRegistry, hostHash h) = Some h.
Proof.
  induction hs as [|x hs IH].
  - cbn. by case_decide.
  - cbn [app last_writer]. by rewrite IH.
Qed.

Lemma registerRequestHost_db (w : World) (host : string) (st : State) :
  (∀ h, h ∈ hosts w host →
        set_outcome w (hostRegistry, hostHash h) = Acknowledged) →
  db (final (registerRequestHost w host st)) =
  foldl (fun d h => <[(hostRegistry, hostHash h) := mkCachedDomain h (now st)]> d)
        (db st) (hosts w host).
Proof.
  intros Hack. rewrite registerRequestHost_run. cbn [final db].
  by apply foldl_upsert_acknowledged.
Qed.

Lemma purge_reaches_entry (w : World) (p : string) (st : State) (e : CachedDomain) :
  e ∈ registry st →
  mkOpts (domain e) 443 p PURGE ∈ requests (events (purgeCache w (Some p) st)).
Proof.
  intros He. rewrite purgeCache_requests. apply elem_of_fanout.
  exists e, p. split; [done|]. split; [|done].
  unfold filenameVariants. left.
Qed.

(** X9: once a registration has been acknowledged, a purge of a path
    sends a [PURGE] for that path to the last host the registration wrote
    (the default domain for a host under [.cloudfunctions.net], the host
    itself otherwise), and to the host itself unless the default domain
    has taken its key. *)
Theorem register_then_purge (w : World) (host p : string) (st : State) :
  (∀ h, h ∈ hosts w host →
        set_outcome w (hostRegistry, hostHash h) = Acknowledged) →
  mkOpts (if endsWith host ".cloudfunctions.net" then getDefaultDomain w else host)
         443 p PURGE
    ∈ requests (events (purgeCache w (Some p)
                          (final (registerRequestHost w host st))))
  ∧ (hostHash host ≠ hostHash (getDefaultDomain w) →
     mkOpts host 443 p PURGE
       ∈ requests (events (purgeCache w (Some p)
                             (final (registerRequestHost w host st))))).
Proof.
  intros Hack. split.
  - set (target := if endsWith host ".cloudfunctions.net"
                   then getDefaultDomain w else host).
    apply (purge_reaches_entry w p _ (mkCachedDomain target (now st))).
    apply elem_of_registry. exists (hostHash target).
    rewrite registerRequestHost_db by done. rewrite lookup_foldl_insert.
    assert (hosts w host = (if endsWith host ".cloudfunctions.net"
                            then [host] else []) ++ [target]) as ->.
    { unfold hosts, target. by destruct (endsWith host ".cloudfunctions.net"). }
    by rewrite last_writer_last.
  - intros Hne.
    apply (purge_reaches_entry w p _ (mkCachedDomain host (now st))).
    apply elem_of_registry. exists (hostHash host).
    rewrite registerRequestHost_db by done. rewrite lookup_foldl_insert.
    unfold hosts. destruct (endsWith host ".cloudfunctions.net");
      cbn [app last_writer]; repeat case_decide; try done.
    exfalso. apply Hne. congruence.
Qed.

Lemma register_then_purge_witness :
  (∀ h, h ∈ hosts world_ok "abc.cloudfunctions.net" →
        set_outcome world_ok (hostRegistry, hostHash h) = Acknowledged)
  ∧ mkOpts "tanam.firebaseapp.com" 443 "/p1" PURGE
      ∈ requests (events (purgeCache world_ok (Some "/p1")
                            (final (registerRequestHost world_ok
                                      "abc.cloudfunctions.net" st_empty)))).
Proof.
  assert (Hack : ∀ h, h ∈ hosts world_ok "abc.cloudfunctions.net" →
                      set_outcome world_ok (hostRegistry, hostHash h) = Acknowledged)
    by reflexivity.
  split; [exact Hack|].
  exact (proj1 (register_then_purge world_ok "abc.cloudfunctions.net" "/p1"
                  st_empty Hack)).
Defined.

(** X10: registering a host again, at a later time, overwrites: every
    entry of the store names the same domain as before, no key is added,
    and the entry of the last host written carries the new time. *)
Theorem register_again_overwrites (w : World) (host : string) (st : State) (t' : Z)
    (ref : string * string) :
  (∀ h, h ∈ hosts w host →
        set_outcome w (hostRegistry, hostHash h) = Acknowledged) →
  let st1 := final (registerRequestHost w host st) in
  let st2 := final (registerRequestHost w host (mkState t' (db st1))) in
  domain <$> (db st2 !! ref) = domain <$> (db st1 !! ref)
  ∧ dom (db st2) = dom (db st1)
  ∧ (last_writer (hosts w host) ref = None → db st2 !! ref = db st !! ref)
  ∧ (∀ h, last_writer (hosts w host) ref = Some h →
          db st2 !! ref = Some (mkCachedDomain h t')).
Proof.
  intros Hack st1 st2.
  assert (Hlook : ∀ r, db st2 !! r =
            match last_writer (hosts w host) r with
            | Some h => Some (mkCachedDomain h t')
            | None => db st1 !! r
            end).
  { intros r. unfold st2. rewrite registerRequestHost_db by done.
    cbn [now db]. apply lookup_foldl_insert. }
  assert (Hlook1 : ∀ r, db st1 !! r =
            match last_writer (hosts w host) r with
            | Some h => Some (mkCachedDomain h (now st))
            | None => db st !! r
            end).
  { intros r. unfold st1. rewrite registerRequestHost_db by done.
    apply lookup_foldl_insert. }
  assert (Hdomain : ∀ r, domain <$> (db st2 !! r) = domain <$> (db st1 !! r)).
  { intros r. rewrite Hlook, Hlook1. by destruct (last_writer (hosts w host) r). }
  split; [apply Hdomain|]. split; [|split].
  - apply set_eq. intros r. rewrite !elem_of_dom.
    rewrite <- !(fmap_is_Some domain). by rewrite Hdomain.
  - intros Hnone. rewrite Hlook, Hlook1, Hnone. done.
  - intros h Hh. by rewrite Hlook, Hh.
Qed.

Lemma register_again_overwrites_witness :
  (∀ h, h ∈ hosts world_ok "a.com" →
        set_outcome world_ok (hostRegistry, hostHash h) = Acknowledged)
  ∧ dom (db (final (registerRequestHost world_ok "a.com" (mkState 5000 (db st_one)))))
    = dom (db st_one).
Proof.
  assert (Hack : ∀ h, h ∈ hosts world_ok "a.com" →
                      set_outcome world_ok (hostRegistry, hostHash h) = Acknowledged)
    by reflexivity.
  split; [exact Hack|].
  exact (proj1 (proj2 (register_again_overwrites world_ok "a.com" st_empty 5000
                         (hostRegistry, hostHash "a.com") Hack))).
Defined.

(* ===================================================================== *)
(** * The cache header and the configuration *)
(* ===================================================================== *)

(** X11: [getCacheHeader] reads [max_age] and [s_max_age] and nothing
    else: a configuration entry under any other key leaves the header as
    it is, and a configuration without entries gives the header of no
    configuration at all. *)
Theorem cache_header_ignores_other_keys (w : World) (c : CacheConfig)
    (key : string) (v : JsValue) :
  key ≠ "max_age" → key ≠ "s_max_age" →
  getCacheHeader (set_config (Some (<[key := v]> c)) w) =
    getCacheHeader (set_config (Some c) w)
  ∧ getCacheHeader (set_config (Some ∅) w) = getCacheHeader (set_config None w).
Proof.
  intros H1 H2. split; [|reflexivity].
  unfold getCacheHeader. cbn [config_cache set_config default]. cbv zeta.
  rewrite !(config_lookup_merged _ "max_age" (JsNumber 600)) by reflexivity.
  rewrite !(config_lookup_merged _ "s_max_age" (JsNumber 31536000)) by reflexivity.
  unfold id. by rewrite !lookup_insert_ne by done.
Qed.

Lemma cache_header_ignores_other_keys_witness :
  "ttl" ≠ "max_age" ∧ "ttl" ≠ "s_max_age"
  ∧ getCacheHeader (set_config (Some (<["ttl" := JsString "5"]>
                                        {[ "max_age" := JsString "30" ]})) world_ok) =
    getCacheHeader (set_config (Some {[ "max_age" := JsString "30" ]}) world_ok).
Proof.
  assert (H1 : "ttl" ≠ "max_age") by discriminate.
  assert (H2 : "ttl" ≠ "s_max_age") by discriminate.
  split; [exact H1|]. split; [exact H2|].
  exact (proj1 (cache_header_ignores_other_keys world_ok
                  {[ "max_age" := JsString "30" ]} "ttl" (JsString "5") H1 H2)).
Defined.

(* ===================================================================== *)
(** * The shape of a registry key *)
(* ===================================================================== *)

Lemma compress_length (h block : list Z) :
  length h = 8%nat → length (Sha256.compress h block) = 8%nat.
Proof.
  intros Hh. unfold Sha256.compress, Sha256.list_of_regs.
  rewrite length_map, length_combine, Hh. reflexivity.
Qed.

Lemma hash_blocks_length (fuel : nat) (h bs : list Z) :
  length h = 8%nat → length (Sha256.hash_blocks fuel h bs) = 8%nat.
Proof.
  revert h bs. induction fuel as [|fuel IH]; intros h bs Hh; [done|].
  cbn [Sha256.hash_blocks]. destruct bs as [|b bs]; [done|].
  by apply IH, compress_length.
Qed.

Lemma SHA256_length (message : string) : length (Sha256.SHA256 message) = 8%nat.
Proof. unfold Sha256.SHA256. by apply hash_blocks_length. Qed.

Lemma hex_of_word_length (n : nat) (x : Z) :
  String.length (Sha256.hex_of_word n x) = n.
Proof. induction n as [|n IH]; [done|]. cbn. by rewrite IH. Qed.

Lemma toString_length (words : list Z) :
  String.length (Sha256.toString words) = (8 * length words)%nat.
Proof.
  induction words as [|x words IH]; [done|].
  unfold Sha256.toString in *. cbn [fold_right length].
  rewrite string_length_app, hex_of_word_length, IH. lia.
Qed.

Lemma list_ascii_app (a b : string) :
  String.list_ascii_of_string (a +:+ b) =
  String.list_ascii_of_string a ++ String.list_ascii_of_string b.
Proof.
  induction a as [|c a IH]; [done|].
  rewrite string_app_cons. cbn. by rewrite IH.
Qed.

Lemma hex_digit_is_lower_hex (d : Z) :
  0 ≤ d < 16 → is_lower_hex (Sha256.hex_digit d) = true.
Proof.
  intros Hd.
  assert (d = 0 ∨ d = 1 ∨ d = 2 ∨ d = 3 ∨ d = 4 ∨ d = 5 ∨ d = 6 ∨ d = 7 ∨
          d = 8 ∨ d = 9 ∨ d = 10 ∨ d = 11 ∨ d = 12 ∨ d = 13 ∨ d = 14 ∨ d = 15)
    as Hcases by lia.
  repeat (destruct Hcases as [->|Hcases]; [reflexivity|]).
  by subst.
Qed.

Lemma hex_of_word_is_lower_hex (n : nat) (x : Z) :
  Forall (fun c => is_lower_hex c = true)
         (String.list_ascii_of_string (Sha256.hex_of_word n x)).
Proof.
  induction n as [|n IH]; [constructor|].
  cbn [Sha256.hex_of_word String.list_ascii_of_string]. constructor; [|done].
  apply hex_digit_is_lower_hex, land_15_bounds.
Qed.

Lemma toString_is_lower_hex (words : list Z) :
  Forall (fun c => is_lower_hex c = true)
         (String.list_ascii_of_string (Sha256.toString words)).
Proof.
  induction words as [|x words IH]; [constructor|].
  unfold Sha256.toString in *. cbn [fold_right].
  rewrite list_ascii_app. apply Forall_app. split; [|done].
  apply hex_of_word_is_lower_hex.
Qed.

(** X12: whatever the hostname, the key it is registered under has 64
    characters, each one of [0-9a-f]; so it holds none of the characters
    of a hostname or path that a database key must not hold, the dot and
    the slash among them. *)
Theorem registry_key_shape (host : string) :
  String.length (hostHash host) = 64%nat
  ∧ Forall (fun c => is_lower_hex c = true)
      (String.list_ascii_of_string (hostHash host))
  ∧ Forall (fun c => c ∉ ["."; "/"; "#"; "$"; "["; "]"]%char)
      (String.list_ascii_of_string (hostHash host)).
Proof.
  rewrite hostHash_digest. split; [|split].
  - by rewrite toString_length, SHA256_length.
  - apply toString_is_lower_hex.
  - eapply Forall_impl; [apply toString_is_lower_hex|].
    intros c Hc Hin. cbn beta in Hc.
    repeat (apply elem_of_cons in Hin as [->|Hin]; [discriminate Hc|]).
    by apply elem_of_nil in Hin.
Qed.

(* ===================================================================== *)
(** * The content write, whatever the network does *)
(* ===================================================================== *)

Lemma all_settle_not_rejected {A} (ps : list (Promise A)) :
  (∀ p, p ∈ ps → ∀ e, p ≠ Rejected e) → ∀ e, all_settle ps ≠ Rejected e.
Proof.
  intros Hnr e. unfold all_settle.
  assert (all_rejected ps = None) as ->.
  { induction ps as [|[a|e'|] ps IH]; cbn; try done.
    - apply IH. intros p ?. apply Hnr. by right.
    - exfalso. by apply (Hnr (Rejected e') ltac:(left) e').
    - apply IH. intros p ?. apply Hnr. by right. }
  by destruct (all_values ps).
Qed.

Lemma fanout_promises_settle_not_rejected (w : World) (m : Method)
    (snap : list CachedDomain) (p : string) (e : JsError) :
  unescaped p = false →
  all_settle (fanout_promises w m snap (filenameVariants p)) ≠ Rejected e.
Proof.
  intros Hesc. unfold all_settle.
  rewrite fanout_promises_not_rejected by done. by destruct (all_values _).
Qed.

Lemma purge_before_not_rejected (w : World) (snap : Change DocumentSnapshot)
    (st : State) :
  paths_nonempty (before snap) →
  (∀ p, first_path (before snap) = Some p → unescaped p = false) →
  ∀ e, settled (purge_before w snap st) ≠ Rejected e.
Proof.
  intros Hne Hesc e. unfold purge_before. rewrite snap_exists_has_path.
  destruct (has_path_first_path _ Hne) as [(-> & b & -> & Hb)|(-> & _)]; [|done].
  erewrite bind_fulfilled; [|apply spawn_purgeCache_run].
  erewrite (bind_fulfilled (spawn (purgeCache w (Some b))));
    [|apply spawn_purgeCache_run].
  cbn [settled final events]. apply bind_ret_not_rejected.
  intros e'. unfold Promise_all. cbn [settled fmap list_fmap outcome].
  apply all_settle_not_rejected. intros p Hp e''.
  apply elem_of_cons in Hp as [->|Hp];
    [by apply fanout_promises_settle_not_rejected|].
  apply elem_of_cons in Hp as [->|Hp];
    [by apply fanout_promises_settle_not_rejected, Hesc|].
  by apply elem_of_nil in Hp.
Qed.

Lemma heatCache_not_rejected (w : World) (p : string) (delay : option Z)
    (st : State) (e : JsError) :
  unescaped p = false →
  settled (heatCache w (Some p) delay st) ≠ Rejected e.
Proof. intros Hesc. rewrite heatCache_run. by apply broadcast_not_rejected. Qed.

(** X13: a content write whose path lists, where present, are not empty
    and whose first paths hold no character that Node refuses in a request
    path is never rejected, whatever becomes of the requests that are
    sent: a refused connection stalls the reaction but raises nothing in
    it. *)
Theorem doc_write_never_rejected (w : World) (snap : Change DocumentSnapshot)
    (st : State) :
  paths_nonempty (before snap) → paths_nonempty (after snap) →
  (∀ p, first_path (before snap) = Some p → unescaped p = false) →
  (∀ p, first_path (after snap) = Some p → unescaped p = false) →
  ∀ e, settled (tanam_onDocWriteUpdateCache w snap st) ≠ Rejected e.
Proof.
  intros Hb Ha Hbe Hae e. unfold tanam_onDocWriteUpdateCache.
  erewrite bind_fulfilled; [|reflexivity]. cbn [settled final events app].
  pose proof (purge_before_not_rejected w snap st Hb Hbe) as Hpb.
  unfold bind at 1.
  destruct (settled (purge_before w snap st)) as [[]|e'|] eqn:E; cbn [settled].
  - rewrite snap_exists_has_path.
    destruct (has_path_first_path _ Ha) as [(-> & a & -> & Hfa)|(-> & _)]; [|done].
    apply bind_ret_not_rejected. intros e''.
    by apply heatCache_not_rejected, Hae.
  - by destruct (Hpb e').
  - done.
Qed.

Lemma doc_write_never_rejected_witness :
  paths_nonempty (snapshot_with ["/blog/x.html"])
  ∧ paths_nonempty (snapshot_with ["/blog/y.html"])
  ∧ unescaped "/blog/x.html" = false
  ∧ unescaped "/blog/y.html" = false
  ∧ (∀ e, settled (tanam_onDocWriteUpdateCache world_refused
                     (mkChange (snapshot_with ["/blog/x.html"])
                               (snapshot_with ["/blog/y.html"])) st_two)
          ≠ Rejected e).
Proof.
  assert (H1 : paths_nonempty (snapshot_with ["/blog/x.html"]))
    by (intros d [= <-]; discriminate).
  assert (H2 : paths_nonempty (snapshot_with ["/blog/y.html"]))
    by (intros d [= <-]; discriminate).
  split; [exact H1|]. split; [exact H2|].
  split; [reflexivity|]. split; [reflexivity|].
  apply (doc_write_never_rejected world_refused
           (mkChange (snapshot_with ["/blog/x.html"])
                     (snapshot_with ["/blog/y.html"])) st_two H1 H2).
  - intros p [= <-]. reflexivity.
  - intros p [= <-]. reflexivity.
Defined.

Lemma requests_spawn_purge (w : World) (filePath : option string) (st : State) :
  Forall (fun o => method o = PURGE)
         (requests (events (spawn (purgeCache w filePath) st))).
Proof.
  destruct filePath as [p|]; [|constructor].
  rewrite spawn_purgeCache_run. cbn [events].
  rewrite requests_fanout_events. apply fanout_method.
Qed.

Lemma spawn_fulfilled {A} (m : M A) (st : State) :
  ∃ h st', spawn m st = mkResult (Fulfilled h) st' (events (spawn m st)).
Proof. unfold spawn. eauto. Qed.

Lemma purge_before_methods (w : World) (snap : Change DocumentSnapshot) (st : State) :
  Forall (fun o => method o = PURGE) (requests (events (purge_before w snap st))).
Proof.
  unfold purge_before.
  destruct (snap_exists (before snap) && has_path (before snap)); [|constructor].
  destruct (spawn_fulfilled (purgeCache w (Some "/sitemap.xml")) st)
    as (h1 & st1 & H1).
  erewrite bind_fulfilled; [|exact H1]. cbn [events].
  destruct (spawn_fulfilled (purgeCache w (path0 (before snap))) st1)
    as (h2 & st2 & H2).
  erewrite (bind_fulfilled (spawn (purgeCache w (path0 (before snap)))));
    [|exact H2].
  cbn [events]. rewrite bind_ret_events. unfold Promise_all. cbn [events].
  rewrite app_nil_r, requests_app. apply Forall_app.
  split; apply requests_spawn_purge.
Qed.

Lemma heatCache_methods (w : World) (filePath : option string) (delay : option Z)
    (st : State) :
  Forall (fun o => method o = GET)
         (requests (events (heatCache w filePath delay st))).
Proof.
  destruct filePath as [p|]; [|constructor].
  rewrite heatCache_requests. apply fanout_method.
Qed.

(** X14: whatever the path lists and whatever the network does, a write
    that deletes the document (no after-state) sends nothing but [PURGE]
    requests, and a write that creates it (no before-state) sends nothing
    but [GET] requests. *)
Theorem doc_write_one_sided (w : World) (snap : Change DocumentSnapshot) (st : State) :
  (data (after snap) = None →
   Forall (fun o => method o = PURGE)
          (requests (events (tanam_onDocWriteUpdateCache w snap st))))
  ∧ (data (before snap) = None →
     Forall (fun o => method o = GET)
            (requests (events (tanam_onDocWriteUpdateCache w snap st)))).
Proof.
  unfold tanam_onDocWriteUpdateCache.
  erewrite bind_fulfilled; [|reflexivity]. cbn [settled final events app].
  split.
  - intros Hafter.
    assert (snap_exists (after snap) = false) as ->
      by (unfold snap_exists; by rewrite Hafter).
    cbn [andb]. rewrite bind_ret_events. apply purge_before_methods.
  - intros Hbefore. unfold purge_before.
    assert (snap_exists (before snap) = false) as ->
      by (unfold snap_exists; by rewrite Hbefore).
    cbn [andb]. erewrite bind_fulfilled; [|reflexivity].
    cbn [events app].
    destruct (snap_exists (after snap) && has_path (after snap)); [|constructor].
    rewrite bind_ret_events. apply heatCache_methods.
Qed.

Lemma doc_write_one_sided_witness :
  data (after (mkChange (snapshot_with ["/blog/x.html"]) (mkSnap None))) = None
  ∧ Forall (fun o => method o = PURGE)
      (requests (events (tanam_onDocWriteUpdateCache world_ok
                           (mkChange (snapshot_with ["/blog/x.html"]) (mkSnap None))
                           st_two)))
  ∧ data (before (mkChange (mkSnap None) (snapshot_with ["/blog/y.html"]))) = None
  ∧ Forall (fun o => method o = GET)
      (requests (events (tanam_onDocWriteUpdateCache world_ok
                           (mkChange (mkSnap None) (snapshot_with ["/blog/y.html"]))
                           st_two))).
Proof.
  split; [reflexivity|]. split.
  - exact (proj1 (doc_write_one_sided world_ok
                    (mkChange (snapshot_with ["/blog/x.html"]) (mkSnap None))
                    st_two) eq_refl).
  - split; [reflexivity|].
    exact (proj2 (doc_write_one_sided world_ok
                    (mkChange (mkSnap None) (snapshot_with ["/blog/y.html"]))
                    st_two) eq_refl).
Defined.

(* ===================================================================== *)
(** * Generated paths *)
(* ===================================================================== *)

Lemma list_ascii_inj (a b : string) :
  String.list_ascii_of_string a = String.list_ascii_of_string b → a = b.
Proof.
  intros H. rewrite <- (String.string_of_list_ascii_of_string a).
  rewrite <- (String.string_of_list_ascii_of_string b). by rewrite H.
Qed.

Lemma string_app_inv_tail (a b s : string) : a +:+ s = b +:+ s → a = b.
Proof.
  intros H. apply list_ascii_inj.
  apply (f_equal String.list_ascii_of_string) in H.
  rewrite !list_ascii_app in H. by apply app_inv_tail in H.
Qed.

Lemma string_app_inv_head (s a b : string) : s +:+ a = s +:+ b → a = b.
Proof.
  intros H. apply list_ascii_inj.
  apply (f_equal String.list_ascii_of_string) in H.
  rewrite !list_ascii_app in H. by apply app_inv_head in H.
Qed.

(** X15: different titles never get the same featured image name, nor,
    under one template, the same paths; but a page whose title is
    [/<template>/<title>] gets the primary path of the document [<title>]
    of that template. *)
Theorem generated_names (title title' template : string) :
  (generateFeaturedImageName title = generateFeaturedImageName title' →
   title = title')
  ∧ (generatePaths title template = generatePaths title' template →
     title = title')
  ∧ (template ≠ "page" →
     generatePaths ("/" +:+ template +:+ "/" +:+ title) "page" !! 0%nat =
     generatePaths title template !! 0%nat).
Proof.
  split; [|split].
  - unfold generateFeaturedImageName. intros H.
    apply string_app_inv_head in H. by apply string_app_inv_tail in H.
  - unfold generatePaths. destruct (String.eqb template "page").
    + intros [= H]. by apply string_app_inv_tail in H.
    + intros [= H]. do 3 apply string_app_inv_head in H.
      by apply string_app_inv_tail in H.
  - intros Hne. unfold generatePaths.
    rewrite String.eqb_refl.
    apply String.eqb_neq in Hne. rewrite Hne. cbn [lookup list_lookup].
    by rewrite !string_app_assoc.
Qed.

Lemma generated_names_witness :
  "blog" ≠ "page"
  ∧ generatePaths "/blog/x" "page" !! 0%nat = generatePaths "x" "blog" !! 0%nat.
Proof.
  assert (H : "blog" ≠ "page") by discriminate.
  split; [exact H|].
  exact (proj2 (proj2 (generated_names "x" "x" "blog")) H).
Defined.

(* ===================================================================== *)
(** * When a fan-out completes *)
(* ===================================================================== *)

(** X17: [purgeCache] completes exactly when every one of its requests
    (one per registry entry and variant) is answered, and [heatCache]
    likewise; one request without a response keeps the operation from ever
    completing. *)
Theorem fanout_completes_iff (w : World) (p : string) (delay : option Z) (st : State) :
  ((∃ vs, settled (purgeCache w (Some p) st) = Fulfilled vs) ↔
   (∀ hostData v, hostData ∈ registry st → v ∈ filenameVariants p →
      ∃ statusCode statusMessage,
        https_outcome w (mkOpts (domain hostData) 443 v PURGE)
        = Response statusCode statusMessage))
  ∧ ((∃ vs, settled (heatCache w (Some p) delay st) = Fulfilled vs) ↔
     (∀ hostData v, hostData ∈ registry st → v ∈ filenameVariants p →
        ∃ statusCode statusMessage,
          https_outcome w (mkOpts (domain hostData) 443 v GET)
          = Response statusCode statusMessage)).
Proof.
  rewrite purgeCache_run, heatCache_run. split.
  - apply broadcast_fulfilled_iff.
  - apply (broadcast_fulfilled_iff w GET (filenameVariants p)
             (mkState (now st + timer_delay (default 10000 delay)
                       + Z.of_N (timer_lag w)) (db st))).
Qed.
